(** * NanoGUI: RadioButton and Screen

    A shallow embedding of [include/nanogui/radiobutton.h] and
    [src/screen.cpp], and the properties of the specification that are
    stated about them.

    Widgets live on the C++ heap and refer to each other by pointer
    (parent, children, button group), so the widget tree is a store from
    addresses to widget objects and every method is a function on stores.
    The native window system and OpenGL are external: what the program asks
    of them is recorded as a log of host calls, what they answer is read
    from a host state. *)

From Stdlib Require Import ZArith String DecimalString QArith Qround.
From stdpp Require Import base option list gmap strings.

Local Open Scope Z_scope.

(** * RadioButton ([include/nanogui/radiobutton.h]) *)
Module Radio.

(** A non-null [Widget *]; the null pointer is [None] where a pointer may be
    null. *)
Definition addr := positive.

(** The dynamic type of an object, as far as [dynamic_cast] tells them apart
    in [toggle]: a [RadioButton] is a [Button], a [Button] is a [Widget]. *)
Inductive dyn_class := Widget_class | Button_class | RadioButton_class.

Global Instance dyn_class_eq_dec : EqDecision dyn_class.
Proof. solve_decision. Defined.

(** The members [toggle] reads or writes. [mFlags], [mPushed], [mIcon] and
    [mButtonGroup] are [Button] members, [mOtherIcon] is the one member
    [RadioButton] adds; they carry no meaning in an object of a smaller
    class. *)
Record widget := mkWidget {
  dyn : dyn_class;
  mParent : option addr;
  mChildren : list addr;
  mFlags : Z;
  mPushed : bool;
  mIcon : Z;
  mButtonGroup : list addr;
  mOtherIcon : Z
}.

Abbreviation store := (gmap addr widget).

(** [dynamic_cast<Button *>(w) != nullptr] *)
Definition is_Button (w : widget) : bool :=
  match dyn w with Widget_class => false | _ => true end.

(** [dynamic_cast<RadioButton *>(w) != nullptr] *)
Definition is_RadioButton (w : widget) : bool :=
  match dyn w with RadioButton_class => true | _ => false end.

(** [std::swap(rb->mIcon, rb->mOtherIcon)] *)
Definition swap_icons (w : widget) : widget :=
  {| dyn := dyn w; mParent := mParent w; mChildren := mChildren w;
     mFlags := mFlags w; mPushed := mPushed w;
     mIcon := mOtherIcon w;
     mButtonGroup := mButtonGroup w;
     mOtherIcon := mIcon w |}.

Definition set_pushed (p : bool) (w : widget) : widget :=
  {| dyn := dyn w; mParent := mParent w; mChildren := mChildren w;
     mFlags := mFlags w; mPushed := p; mIcon := mIcon w;
     mButtonGroup := mButtonGroup w; mOtherIcon := mOtherIcon w |}.

(** The icon pair of an object, current icon first. *)
Definition icons (w : widget) : Z * Z := (mIcon w, mOtherIcon w).

(** Running a loop body over a container, stopping at the first undefined
    step. *)
Fixpoint for_each (body : store → addr → option store) (l : list addr)
    (s : store) : option store :=
  match l with
  | [] => Some s
  | a :: l' => s1 ← body s a; for_each body l' s1
  end.

Section toggle.

(** [Button::Flags::RadioButton] and [Button::Flags::ToggleButton] are
    declared in [button.h]; their values are not needed, only that they are
    masks tested with [&] and joined with [|]. *)
Variables Flags_RadioButton Flags_ToggleButton : Z.

(** [Button::toggle()], defined in [button.cpp]: the base behaviour
    [RadioButton::toggle] ends with. *)
Variable Button_toggle : addr → store → option store.

(** [(b->flags() & Flags::RadioButton)] as a condition *)
Definition has_radio_flag (w : widget) : bool :=
  negb (Z.land (mFlags w) Flags_RadioButton =? 0).

(** The condition under which a visited peer has its icons swapped, on the
    object [w] at address [a]:
    [b && b != this && (b->flags() & Flags::RadioButton) && b->pushed()]
    and then [rb] non-null. *)
Definition peer_selected (this a : addr) (w : widget) : bool :=
  is_Button w && negb (bool_decide (a = this)) && has_radio_flag w && mPushed w.

Definition peer_swapped (this a : addr) (w : widget) : bool :=
  peer_selected this a w && is_RadioButton w.

(** Body of the loop over [parent()->children()]: the [dynamic_cast] reads
    the object, so a dangling child pointer has no defined behaviour. *)
Definition visit_child (this : addr) (s : store) (a : addr) : option store :=
  w ← s !! a;
  if peer_selected this a w
  then (if is_RadioButton w then Some (<[a := swap_icons w]> s) else Some s)
  else Some s.

(** Body of the loop over [mButtonGroup], a [std::vector<Button *>]: [b] is
    compared with [this] before it is dereferenced, and what it points to is
    a [Button]. *)
Definition visit_member (this : addr) (s : store) (a : addr) : option store :=
  if bool_decide (a = this) then Some s
  else
    w ← s !! a;
    if is_Button w then
      if has_radio_flag w && mPushed w
      then (if is_RadioButton w then Some (<[a := swap_icons w]> s) else Some s)
      else Some s
    else None.

(** The peers [toggle] enumerates: the explicit group when it is not empty,
    the children of the parent otherwise ([parent()] must not be null
    then). *)
Definition peers (this : addr) (s : store) : option (list addr) :=
  me ← s !! this;
  match mButtonGroup me with
  | [] => p ← mParent me; pw ← s !! p; Some (mChildren pw)
  | g => Some g
  end.

(** [RadioButton::toggle()] *)
Definition RadioButton_toggle (this : addr) (s : store) : option store :=
  me ← s !! this;
  if is_RadioButton me then
    s1 ← match mButtonGroup me with
         | [] =>
             p ← mParent me; pw ← s !! p;
             for_each (visit_child this) (mChildren pw) s
         | g => for_each (visit_member this) g s
         end;
    me1 ← s1 !! this;
    Button_toggle this (<[this := swap_icons me1]> s1)
  else None.

End toggle.

(** Modelled from the spec: [Button::toggle()] is defined in [button.cpp],
    which is not among the sources. The specification says of it only that it
    is "the base toggle behavior that actually flips pushed state". This is
    the least function that does so: it negates the pushed flag of the button
    it is called on. What the function of [button.cpp] does to the other
    buttons the specification does not say, and nothing is claimed of it
    here: the theorems about [toggle] are stated for every base toggle, and
    this one serves to run the examples. *)
Definition Button_toggle (this : addr) (s : store) : option store :=
  me ← s !! this;
  Some (<[this := set_pushed (negb (mPushed me)) me]> s).

(** [parent->addChild(this)] appends to the parent's children. *)
Definition add_child (a : addr) (w : widget) : widget :=
  {| dyn := dyn w; mParent := mParent w; mChildren := mChildren w ++ [a];
     mFlags := mFlags w; mPushed := mPushed w; mIcon := mIcon w;
     mButtonGroup := mButtonGroup w; mOtherIcon := mOtherIcon w |}.

(** Modelled from the spec: [Button::Button(parent, caption, icon)] and the
    [Widget] constructor it runs are not among the sources. Of the state they
    set up, the data model of the specification names the icon, the pushed
    state, the group list and the membership of the widget among the children
    of its parent: a new button, constructed at the unused address [this],
    shows the icon it is given, is not pushed, has no explicit group, and is
    the last child of its parent. Its flags start as [Flags::NormalButton],
    a constant of [button.h]. *)
Definition Button_ctor (Flags_NormalButton : Z) (this : addr)
    (parent : option addr) (icon : Z) (s : store) : option store :=
  match s !! this with
  | Some _ => None
  | None =>
      let obj := {| dyn := Button_class; mParent := parent; mChildren := [];
                    mFlags := Flags_NormalButton; mPushed := false;
                    mIcon := icon;
                    mButtonGroup := []; mOtherIcon := 0 |} in
      match parent with
      | None => Some (<[this := obj]> s)
      | Some p => pw ← s !! p; Some (<[this := obj]> (<[p := add_child this pw]> s))
      end
  end.

(** What the body and the member initialiser of the [RadioButton]
    constructor make of the [Button] subobject: the object is a
    [RadioButton], [mOtherIcon(checkedIcon)], and
    [setFlags(Flags::RadioButton | Flags::ToggleButton)]. *)
Definition as_RadioButton (Flags_RadioButton Flags_ToggleButton checkedIcon : Z)
    (w : widget) : widget :=
  {| dyn := RadioButton_class; mParent := mParent w; mChildren := mChildren w;
     mFlags := Z.lor Flags_RadioButton Flags_ToggleButton;
     mPushed := mPushed w; mIcon := mIcon w;
     mButtonGroup := mButtonGroup w; mOtherIcon := checkedIcon |}.

(** [RadioButton::RadioButton(parent, checkedIcon, uncheckdIcon, caption)]:
    [Button(parent, caption, uncheckdIcon), mOtherIcon(checkedIcon)] and the
    flags. The caption and the fixed size play no part in [toggle]. *)
Definition RadioButton_ctor
    (Flags_NormalButton Flags_RadioButton Flags_ToggleButton : Z)
    (this : addr) (parent : option addr) (checkedIcon uncheckdIcon : Z)
    (s : store) : option store :=
  s1 ← Button_ctor Flags_NormalButton this parent uncheckdIcon s;
  Some (alter (as_RadioButton Flags_RadioButton Flags_ToggleButton checkedIcon)
              this s1).

(** A sequence of [toggle()] calls, on the buttons [ts] in turn. *)
Fixpoint toggles (Flags_RadioButton : Z)
    (base_toggle : addr → store → option store) (ts : list addr) (s : store)
    : option store :=
  match ts with
  | [] => Some s
  | a :: ts' =>
      s1 ← RadioButton_toggle Flags_RadioButton base_toggle a s;
      toggles Flags_RadioButton base_toggle ts' s1
  end.

(** ** What the loops do

    How often the loop of [toggle] comes across the address [b]. *)
Definition visits (b : addr) (l : list addr) : nat :=
  length (filter (λ a, a = b) l).

(** Whether [toggle] called on [this] swaps the icons of the peer at [b] each
    time it comes across it. *)
Definition swapped_peer (Flags_RadioButton : Z) (this : addr) (s : store)
    (b : addr) : bool :=
  match s !! b with
  | Some w => peer_swapped Flags_RadioButton this b w
  | None => false
  end.

(** What one step of either loop of [toggle], visiting [a], does to the
    object at address [b]. *)
Definition step_at (Flags_RadioButton : Z) (this : addr) (s : store)
    (a b : addr) : widget → widget :=
  if swapped_peer Flags_RadioButton this s a && bool_decide (b = a)
  then swap_icons else id.

(** What the loop of [toggle] over the peers [l] does to the object at
    address [b]: one swap for each time a selected peer is come across. *)
Definition loop_at (Flags_RadioButton : Z) (this : addr) (s : store)
    (l : list addr) (b : addr) : widget → widget :=
  Nat.iter (if swapped_peer Flags_RadioButton this s b then visits b l else 0%nat)
           swap_icons.

(** What [toggle] has done to the object at address [b] when it hands over
    to the base class: its own icons are swapped once, those of its peers as
    the loop left them. *)
Definition before_base_at (Flags_RadioButton : Z) (this : addr) (s : store)
    (l : list addr) (b : addr) : widget → widget :=
  if bool_decide (b = this) then swap_icons
  else loop_at Flags_RadioButton this s l b.

(** The peers of [this] can all be visited: every one of them is an object
    of the store, and a [Button] when it comes from the explicit group (a
    [std::vector<Button *>]). *)
Definition peers_valid (this : addr) (s : store) (l : list addr) : Prop :=
  ∀ a, a ∈ l →
    ∃ w, s !! a = Some w ∧
         ((∃ me, s !! this = Some me ∧ mButtonGroup me ≠ []) → is_Button w = true).

(** The members [toggle] never writes. *)
Definition skeleton (w : widget)
    : dyn_class * option addr * list addr * Z * list addr :=
  (dyn w, mParent w, mChildren w, mFlags w, mButtonGroup w).

(** [w'] holds the two icons of [w], in the same or in the other order. *)
Definition same_icon_pair (w w' : widget) : Prop :=
  icons w' = icons w ∨ icons w' = (mOtherIcon w, mIcon w).

(** A change of an object that keeps its skeleton and its pair of icons. *)
Definition keeps_icon_pair (g : widget → widget) : Prop :=
  ∀ w, skeleton (g w) = skeleton w ∧ same_icon_pair w (g w).

(** [s'] has the objects of [s], each with its pair of icons. *)
Definition icons_kept (s s' : store) : Prop :=
  ∀ b w, s !! b = Some w → ∃ w', s' !! b = Some w' ∧ same_icon_pair w w'.

(** The presentation of a button with the checked icon [c] and the unchecked
    icon [u]: checked when it shows [c] and holds [u], unchecked the other
    way round. *)
Definition checked_presentation (c u : Z) (w : widget) : Prop :=
  icons w = (c, u).

Definition unchecked_presentation (c u : Z) (w : widget) : Prop :=
  icons w = (u, c).

(** The claim of the specification about the presentation after
    [toggle()], as it is stated: the button toggled shows its checked icon
    afterwards. *)
Definition own_icon_checked_after_toggle (Flags_RadioButton c u : Z)
    (this : addr) (s : store) : Prop :=
  ∀ s', RadioButton_toggle Flags_RadioButton Button_toggle this s = Some s' →
    ∃ w, s' !! this = Some w ∧ checked_presentation c u w.

(** ** A small widget tree

    A plain widget at address 1 and, constructed one after the other as its
    children, three radio buttons at 2, 3 and 4, with the checked icon 7 and
    the unchecked icon 0. The flag values 1, 2 and 4 are one choice of
    three distinct bits. *)
Definition root_widget : widget :=
  {| dyn := Widget_class; mParent := None; mChildren := []; mFlags := 0;
     mPushed := false; mIcon := 0; mButtonGroup := []; mOtherIcon := 0 |}.

Definition three_buttons : option store :=
  s2 ← RadioButton_ctor 1 2 4 2%positive (Some 1%positive) 7 0
         {[ 1%positive := root_widget ]};
  s3 ← RadioButton_ctor 1 2 4 3%positive (Some 1%positive) 7 0 s2;
  RadioButton_ctor 1 2 4 4%positive (Some 1%positive) 7 0 s3.

(** The tree after the toggles [ts], the empty store if they do not complete. *)
Definition tree_after (ts : list addr) : store :=
  default ∅ (three_buttons ≫= toggles 2 Button_toggle ts).

(** ** Further trees

    A radio button constructed without a parent, at address 5; and the tree
    of three buttons after the third was toggled, in which the first button
    has been given an explicit group that lists the third one twice
    ([Button::setButtonGroup] stores the list it is given). *)
Definition lone_button : store :=
  default ∅ (RadioButton_ctor 1 2 4 5%positive None 7 0 ∅).

Definition with_button_group (g : list addr) (w : widget) : widget :=
  {| dyn := dyn w; mParent := mParent w; mChildren := mChildren w;
     mFlags := mFlags w; mPushed := mPushed w; mIcon := mIcon w;
     mButtonGroup := g; mOtherIcon := mOtherIcon w |}.

Definition doubled_group : store :=
  alter (with_button_group [3%positive; 3%positive]) 2%positive
        (tree_after [3%positive]).

End Radio.

(** * Screen ([src/screen.cpp]) *)
Module Screen.

(** A non-null [Screen *], [GLFWwindow *] and [GLFWcursor *]; a pointer that
    may be null is an [option]. *)
Definition addr := positive.
Definition GLFWwindow := positive.
Definition GLFWcursor := positive.

Definition Vector2i : Type := Z * Z.

(** What a [throw] carries, as far as a handler for [const std::exception &]
    tells: an object of a class derived from [std::exception]
    ([std::runtime_error] is one), with its [what()], or anything else. *)
Inductive exn := std_exception (what : string) | other_exception.

(** The callbacks GLFW offers and the constructor sets. *)
Inductive CallbackKind :=
  CursorPos | MouseButton | Key | Char | Drop | Scroll | FramebufferSize.

Global Instance CallbackKind_eq_dec : EqDecision CallbackKind.
Proof. solve_decision. Defined.

Definition all_callbacks : list CallbackKind :=
  [CursorPos; MouseButton; Key; Char; Drop; Scroll; FramebufferSize].

(** The window hints of the constructor; the values of the macros are
    GLFW's. *)
Inductive WindowHint :=
  | GLFW_CONTEXT_VERSION_MAJOR | GLFW_CONTEXT_VERSION_MINOR
  | GLFW_OPENGL_FORWARD_COMPAT | GLFW_OPENGL_PROFILE | GLFW_SAMPLES
  | GLFW_RED_BITS | GLFW_GREEN_BITS | GLFW_BLUE_BITS | GLFW_ALPHA_BITS
  | GLFW_STENCIL_BITS | GLFW_DEPTH_BITS | GLFW_VISIBLE | GLFW_RESIZABLE.

Inductive HintValue :=
  | hint_int (n : Z) | GL_TRUE | GL_FALSE | GLFW_OPENGL_CORE_PROFILE.

(** An [unsigned int] passed where the callee takes an [int], as the version
    numbers are to [glfwWindowHint(int, int)]: the value modulo 2^32 that
    lies from -2^31 below 2^31. *)
Definition to_int (n : Z) : Z :=
  (n + 2147483648) mod 4294967296 - 2147483648.

(** The build: the platform macros, and the single-precision arithmetic the
    code does on the pixel ratio, which is left abstract. *)
Record Build := {
  float : Type;
  scaled_platform : bool;      (* defined(_WIN32) || defined(__linux__) *)
  apple_platform : bool;       (* defined(__APPLE__) *)
  NANOGUI_GLAD : bool;         (* defined(NANOGUI_GLAD) *)
  CursorCount : nat;           (* (int) Cursor::CursorCount *)
  background0 : float * float * float * float;  (* 0.3f, 0.3f, 0.32f, 1.f *)
  float_quot : Z → Z → float;  (* (float) a / (float) b *)
  is_one : float → bool;       (* r == 1 *)
  scale : Z → float → Z;       (* x * r, passed as an int *)
  vec_div : Vector2i → float → Vector2i;  (* v / r on a Vector2i *)
  vec_mul : Vector2i → float → Vector2i   (* v * r on a Vector2i *)
}.

Section model.

Variable B : Build.

Abbreviation float := (float B).
Abbreviation Color := (float * float * float * float)%type.

(** ** The objects *)

(** The members [screen.cpp] uses without initialising them in a member
    initialiser of [Screen]: they belong to the base classes [ScreenCore] and
    [Widget]. *)
Record ScreenCore := {
  mSize : Vector2i;
  mVisible : bool;
  mFBSize : Vector2i;
  mPixelRatio : float;
  mProcessEvents : bool
}.

Record Screen := {
  base : ScreenCore;
  mGLFWWindow : option GLFWwindow;
  mCursors : list (option GLFWcursor);
  mBackground : Color;
  mCaption : string;
  mShutdownGLFWOnDestruct : bool;
  mFullscreen : bool
}.

Definition set_base (f : ScreenCore → ScreenCore) (s : Screen) : Screen :=
  {| base := f (base s); mGLFWWindow := mGLFWWindow s; mCursors := mCursors s;
     mBackground := mBackground s; mCaption := mCaption s;
     mShutdownGLFWOnDestruct := mShutdownGLFWOnDestruct s;
     mFullscreen := mFullscreen s |}.

Definition core_set_mSize (v : Vector2i) (c : ScreenCore) : ScreenCore :=
  {| mSize := v; mVisible := mVisible c; mFBSize := mFBSize c;
     mPixelRatio := mPixelRatio c; mProcessEvents := mProcessEvents c |}.

Definition core_set_mVisible (v : bool) (c : ScreenCore) : ScreenCore :=
  {| mSize := mSize c; mVisible := v; mFBSize := mFBSize c;
     mPixelRatio := mPixelRatio c; mProcessEvents := mProcessEvents c |}.

Definition core_set_mFBSize (v : Vector2i) (c : ScreenCore) : ScreenCore :=
  {| mSize := mSize c; mVisible := mVisible c; mFBSize := v;
     mPixelRatio := mPixelRatio c; mProcessEvents := mProcessEvents c |}.

Definition core_set_mPixelRatio (r : float) (c : ScreenCore) : ScreenCore :=
  {| mSize := mSize c; mVisible := mVisible c; mFBSize := mFBSize c;
     mPixelRatio := r; mProcessEvents := mProcessEvents c |}.

Definition set_mSize (v : Vector2i) : Screen → Screen := set_base (core_set_mSize v).
Definition set_mVisible (v : bool) : Screen → Screen := set_base (core_set_mVisible v).
Definition set_mFBSize (v : Vector2i) : Screen → Screen := set_base (core_set_mFBSize v).
Definition set_mPixelRatio (r : float) : Screen → Screen :=
  set_base (core_set_mPixelRatio r).

Definition set_mGLFWWindow (w : option GLFWwindow) (s : Screen) : Screen :=
  {| base := base s; mGLFWWindow := w; mCursors := mCursors s;
     mBackground := mBackground s; mCaption := mCaption s;
     mShutdownGLFWOnDestruct := mShutdownGLFWOnDestruct s;
     mFullscreen := mFullscreen s |}.

Definition set_mCursors (cs : list (option GLFWcursor)) (s : Screen) : Screen :=
  {| base := base s; mGLFWWindow := mGLFWWindow s; mCursors := cs;
     mBackground := mBackground s; mCaption := mCaption s;
     mShutdownGLFWOnDestruct := mShutdownGLFWOnDestruct s;
     mFullscreen := mFullscreen s |}.

Definition set_mCaption (c : string) (s : Screen) : Screen :=
  {| base := base s; mGLFWWindow := mGLFWWindow s; mCursors := mCursors s;
     mBackground := mBackground s; mCaption := c;
     mShutdownGLFWOnDestruct := mShutdownGLFWOnDestruct s;
     mFullscreen := mFullscreen s |}.

Definition set_mShutdownGLFWOnDestruct (b : bool) (s : Screen) : Screen :=
  {| base := base s; mGLFWWindow := mGLFWWindow s; mCursors := mCursors s;
     mBackground := mBackground s; mCaption := mCaption s;
     mShutdownGLFWOnDestruct := b; mFullscreen := mFullscreen s |}.

(** ** The host *)

(** What the program asks of GLFW, OpenGL and the standard error stream, and
    the two virtual drawing methods it invokes. *)
Inductive Call :=
  | glfwWindowHint (h : WindowHint) (v : HintValue)
  | glfwGetPrimaryMonitor
  | glfwGetVideoMode
  | glfwCreateWindow (width height : Z) (title : string) (on_monitor : bool)
  | glfwMakeContextCurrent (w : option GLFWwindow)
  | gladLoadGLLoader
  | glGetError
  | glfwGetFramebufferSize (w : option GLFWwindow)
  | glfwGetWindowSize (w : option GLFWwindow)
  | glfwGetWindowAttrib_VISIBLE (w : option GLFWwindow)
  | glViewport (x y width height : Z)
  | glClearColor (c : Color)
  | glClear
  | glfwSwapInterval (n : Z)
  | glfwSwapBuffers (w : option GLFWwindow)
  | glfwPollEvents
  | glfwSetCallback (k : CallbackKind) (w : option GLFWwindow)
  | glfwSetWindowSize (w : option GLFWwindow) (width height : Z)
  | glfwShowWindow (w : option GLFWwindow)
  | glfwHideWindow (w : option GLFWwindow)
  | glfwSetWindowTitle (w : option GLFWwindow) (title : string)
  | glfwCreateStandardCursor (shape : nat)
  | glfwDestroyCursor (c : GLFWcursor)
  | glfwDestroyWindow (w : GLFWwindow)
  | drawContents (s : addr)
  | drawWidgets (s : addr)
  | cerr (text : string).

(** What GLFW reports of a window. *)
Record Window := {
  fb_size : Vector2i;
  win_size : Vector2i;
  win_visible : bool
}.

(** The host: the windows and cursors that exist, the callbacks of the
    constructor that are set, the calls made so far (oldest first), and the
    answers it has in store for the requests to come. How the window system
    reacts to a request (a new size, a title) is its own business: such
    requests are logged, and what it reports is whatever its state holds. *)
Record Host := {
  windows : gmap GLFWwindow Window;
  cursors : gset GLFWcursor;
  callbacks : list (GLFWwindow * CallbackKind);
  log : list Call;
  primary_monitor : option Vector2i;
  pending_windows : list (option (GLFWwindow * Window));
  loader_ok : bool;
  std_cursors : list (option GLFWcursor);
  os_pixel_ratio : float
}.

(** The program state: the [Screen] objects alive, the two globals of
    [screen.cpp], and the host. *)
Record World := {
  heap : gmap addr Screen;
  nanogui_screens : gmap (option GLFWwindow) addr;
  gladInitialized : bool;
  host : Host
}.

Definition set_heap (f : gmap addr Screen → gmap addr Screen) (W : World) : World :=
  {| heap := f (heap W); nanogui_screens := nanogui_screens W;
     gladInitialized := gladInitialized W; host := host W |}.

Definition set_nanogui_screens
    (f : gmap (option GLFWwindow) addr → gmap (option GLFWwindow) addr)
    (W : World) : World :=
  {| heap := heap W; nanogui_screens := f (nanogui_screens W);
     gladInitialized := gladInitialized W; host := host W |}.

Definition set_gladInitialized (b : bool) (W : World) : World :=
  {| heap := heap W; nanogui_screens := nanogui_screens W;
     gladInitialized := b; host := host W |}.

Definition set_host (f : Host → Host) (W : World) : World :=
  {| heap := heap W; nanogui_screens := nanogui_screens W;
     gladInitialized := gladInitialized W; host := f (host W) |}.

Definition add_log (c : Call) (h : Host) : Host :=
  {| windows := windows h; cursors := cursors h; callbacks := callbacks h;
     log := log h ++ [c];
     primary_monitor := primary_monitor h;
     pending_windows := pending_windows h; loader_ok := loader_ok h;
     std_cursors := std_cursors h; os_pixel_ratio := os_pixel_ratio h |}.

Definition set_windows (f : gmap GLFWwindow Window → gmap GLFWwindow Window)
    (h : Host) : Host :=
  {| windows := f (windows h); cursors := cursors h; callbacks := callbacks h;
     log := log h; primary_monitor := primary_monitor h;
     pending_windows := pending_windows h; loader_ok := loader_ok h;
     std_cursors := std_cursors h; os_pixel_ratio := os_pixel_ratio h |}.

Definition set_cursors (f : gset GLFWcursor → gset GLFWcursor) (h : Host) : Host :=
  {| windows := windows h; cursors := f (cursors h); callbacks := callbacks h;
     log := log h; primary_monitor := primary_monitor h;
     pending_windows := pending_windows h; loader_ok := loader_ok h;
     std_cursors := std_cursors h; os_pixel_ratio := os_pixel_ratio h |}.

Definition add_callback (w : GLFWwindow) (k : CallbackKind) (h : Host) : Host :=
  {| windows := windows h; cursors := cursors h;
     callbacks := (w, k) :: callbacks h;
     log := log h; primary_monitor := primary_monitor h;
     pending_windows := pending_windows h; loader_ok := loader_ok h;
     std_cursors := std_cursors h; os_pixel_ratio := os_pixel_ratio h |}.

Definition set_pending_windows (l : list (option (GLFWwindow * Window)))
    (h : Host) : Host :=
  {| windows := windows h; cursors := cursors h; callbacks := callbacks h;
     log := log h; primary_monitor := primary_monitor h;
     pending_windows := l; loader_ok := loader_ok h;
     std_cursors := std_cursors h; os_pixel_ratio := os_pixel_ratio h |}.

(** ** Computations *)

(** How a call ends: it returns, it throws, the process aborts, or the
    behaviour is undefined (a null or dangling pointer is dereferenced). *)
Inductive outcome (A : Type) :=
  | Return (a : A) (W : World)
  | Throw (e : exn) (W : World)
  | Abort (W : World)
  | Undefined.
Global Arguments Return {A} a W.
Global Arguments Throw {A} e W.
Global Arguments Abort {A} W.
Global Arguments Undefined {A}.

Definition M (A : Type) : Type := World → outcome A.

Global Instance M_ret : MRet M := λ A a W, Return a W.

Global Instance M_bind : MBind M := λ A C f m W,
  match m W with
  | Return a W' => f a W'
  | Throw e W' => Throw e W'
  | Abort W' => Abort W'
  | Undefined => Undefined
  end.

Definition throw {A} (e : exn) : M A := λ W, Throw e W.
Definition abort {A} : M A := λ W, Abort W.
Definition undefined {A} : M A := λ W, Undefined.
Definition get : M World := λ W, Return W W.
Definition modify (f : World → World) : M unit := λ W, Return tt (f W).

(** [try { m } catch (const std::exception &e) { handler(e.what()) }] *)
Definition try_catch_std {A} (m : M A) (handler : string → M A) : M A := λ W,
  match m W with
  | Throw (std_exception what) W' => handler what W'
  | r => r
  end.

Definition call (c : Call) : M unit := modify (set_host (add_log c)).

(** Reading and writing the object at [this]. *)
Definition read (this : addr) : M Screen :=
  W ← get;
  match heap W !! this with Some s => mret s | None => undefined end.

Definition write (this : addr) (s : Screen) : M unit :=
  modify (set_heap <[this := s]>).

Definition update (this : addr) (f : Screen → Screen) : M unit :=
  s ← read this; write this (f s).

(** ** What the host answers *)

(** [glfwGetFramebufferSize], [glfwGetWindowSize] and
    [glfwGetWindowAttrib(w, GLFW_VISIBLE)] need a window that exists. *)
Definition window_info (w : option GLFWwindow) : M Window :=
  W ← get;
  match w ≫= (windows (host W) !!.) with
  | Some i => mret i
  | None => undefined
  end.

Definition getFramebufferSize (w : option GLFWwindow) : M Vector2i :=
  call (glfwGetFramebufferSize w);; i ← window_info w; mret (fb_size i).

Definition getWindowSize (w : option GLFWwindow) : M Vector2i :=
  call (glfwGetWindowSize w);; i ← window_info w; mret (win_size i).

Definition getWindowAttrib_VISIBLE (w : option GLFWwindow) : M bool :=
  call (glfwGetWindowAttrib_VISIBLE w);; i ← window_info w; mret (win_visible i).

(** [glfwGetVideoMode(glfwGetPrimaryMonitor())], with [mode->width] and
    [mode->height] read from the result: without a monitor [mode] is null. *)
Definition getPrimaryVideoMode : M Vector2i :=
  call glfwGetPrimaryMonitor;; call glfwGetVideoMode;;
  W ← get;
  match primary_monitor (host W) with
  | Some mode => mret mode
  | None => undefined
  end.

(** [glfwCreateWindow]: the next answer the host has in store, null when it
    has none. *)
Definition createWindow (width height : Z) (title : string) (on_monitor : bool)
    : M (option GLFWwindow) :=
  call (glfwCreateWindow width height title on_monitor);;
  W ← get;
  match pending_windows (host W) with
  | [] => mret None
  | None :: rest =>
      modify (set_host (set_pending_windows rest));; mret None
  | Some (w, i) :: rest =>
      modify (set_host (set_pending_windows rest));;
      modify (set_host (set_windows <[w := i]>));;
      mret (Some w)
  end.

Definition loadGLLoader : M bool :=
  call gladLoadGLLoader;; W ← get; mret (loader_ok (host W)).

(** [glfwCreateStandardCursor(GLFW_ARROW_CURSOR + i)] *)
Definition createStandardCursor (i : nat) : M (option GLFWcursor) :=
  call (glfwCreateStandardCursor i);;
  W ← get;
  match std_cursors (host W) !! i with
  | Some (Some c) => modify (set_host (set_cursors (λ cs, {[c]} ∪ cs)));; mret (Some c)
  | _ => mret None
  end.

Definition destroyCursor (c : GLFWcursor) : M unit :=
  call (glfwDestroyCursor c);; modify (set_host (set_cursors (λ cs, cs ∖ {[c]}))).

Definition destroyWindow (w : GLFWwindow) : M unit :=
  call (glfwDestroyWindow w);; modify (set_host (set_windows (delete w))).

(** [glfwSet...Callback(mGLFWWindow, lambda)], for the lambda of the
    constructor. *)
Definition setCallback (k : CallbackKind) (w : GLFWwindow) : M unit :=
  call (glfwSetCallback k (Some w));; modify (set_host (add_callback w k)).

(** ** The functions of [screen.cpp] *)

(** The state of the base subobject when [ScreenCore()] has run, and
    [ScreenCore::init(size, pixelRatio)]: both are defined with [ScreenCore],
    outside of [screen.cpp]. [init] acts on the base subobject, and may
    throw. *)
Variable ScreenCore_ctor : ScreenCore.
Variable ScreenCore_init : Vector2i → float → ScreenCore → exn + ScreenCore.

(** [resizeEvent(size)], a virtual method of the widget tree. *)
Variable resizeEvent : addr → Vector2i → M bool.

Definition init (this : addr) (size : Vector2i) (pixelRatio : float) : M unit :=
  s ← read this;
  match ScreenCore_init size pixelRatio (base s) with
  | inl e => throw e
  | inr c => write this (set_base (λ _, c) s)
  end.

(** [get_pixel_ratio(window)]: asked of the platform on Windows and Linux,
    the quotient of the widths of framebuffer and window elsewhere. *)
Definition get_pixel_ratio (window : option GLFWwindow) : M float :=
  if scaled_platform B then
    W ← get; mret (os_pixel_ratio (host W))
  else
    fbSize ← getFramebufferSize window;
    size ← getWindowSize window;
    mret (float_quot B fbSize.1 size.1).

(** The block under [NANOGUI_GLAD], the same in the constructor and in
    [initialize]. *)
Definition glad_init : M unit :=
  if NANOGUI_GLAD B then
    W ← get;
    if gladInitialized W then mret tt
    else
      modify (set_gladInitialized true);;
      ok ← loadGLLoader;
      if ok : bool then call glGetError
      else throw (std_exception "Could not initialize GLAD!")
  else mret tt.

(** [mCursors[i] = glfwCreateStandardCursor(GLFW_ARROW_CURSOR + i)] for the
    indices [shapes] in turn. *)
Fixpoint create_cursors (this : addr) (shapes : list nat) : M unit :=
  match shapes with
  | [] => mret tt
  | i :: shapes' =>
      c ← createStandardCursor i;
      update this (λ s, set_mCursors (<[i := c]> (mCursors s)) s);;
      create_cursors this shapes'
  end.

(** [Screen::initialize(window, shutdownGLFWOnDestruct)] *)
Definition initialize (this : addr) (window : option GLFWwindow)
    (shutdownGLFWOnDestruct : bool) : M unit :=
  update this (set_mGLFWWindow window);;
  update this (set_mShutdownGLFWOnDestruct shutdownGLFWOnDestruct);;
  size ← getWindowSize window;
  update this (set_mSize size);;
  fbSize ← getFramebufferSize window;
  update this (set_mFBSize fbSize);;
  r ← get_pixel_ratio window;
  update this (set_mPixelRatio r);;
  (if scaled_platform B then
     s ← read this;
     if negb (is_one B (mPixelRatio (base s))) && negb (mFullscreen s)
     then call (glfwSetWindowSize window
                  (scale B (mSize (base s)).1 (mPixelRatio (base s)))
                  (scale B (mSize (base s)).2 (mPixelRatio (base s))))
     else mret tt
   else mret tt);;
  glad_init;;
  s ← read this;
  r' ← get_pixel_ratio window;
  init this (mSize (base s)) r';;
  visible ← getWindowAttrib_VISIBLE window;
  update this (set_mVisible visible);;
  s ← read this;
  modify (set_nanogui_screens <[mGLFWWindow s := this]>);;
  create_cursors this (seq 0 (CursorCount B)).

(** A constructor running at the unused address [this]: when it throws, no
    object has come to be. *)
Definition constructing (this : addr) (s0 : Screen) (body : M unit) : M unit :=
  λ W,
  match heap W !! this with
  | Some _ => Undefined
  | None =>
      match (write this s0;; body) W with
      | Throw e W' => Throw e (set_heap (delete this) W')
      | r => r
      end
  end.

(** [Screen::Screen()] *)
Definition Screen_default_ctor (this : addr) : M unit :=
  constructing this
    {| base := ScreenCore_ctor; mGLFWWindow := None;
       mCursors := replicate (CursorCount B) None;
       mBackground := background0 B; mCaption := "";
       mShutdownGLFWOnDestruct := false; mFullscreen := false |}
    (mret tt).

(** [std::to_string] of an unsigned number *)
Definition to_string (n : N) : string := NilZero.string_of_uint (N.to_uint n).

(** The arguments of the second constructor; [glMajor] and [glMinor] are
    [unsigned int], the bit depths and the sample count [int]. *)
Record ScreenArgs := {
  arg_size : Vector2i;
  arg_caption : string;
  arg_resizable : bool;
  arg_fullscreen : bool;
  arg_colorBits : Z;
  arg_alphaBits : Z;
  arg_depthBits : Z;
  arg_stencilBits : Z;
  arg_nSamples : Z;
  arg_glMajor : N;
  arg_glMinor : N
}.

Definition window_hints (a : ScreenArgs) : list Call :=
  [ glfwWindowHint GLFW_CONTEXT_VERSION_MAJOR
      (hint_int (to_int (Z.of_N (arg_glMajor a))));
    glfwWindowHint GLFW_CONTEXT_VERSION_MINOR
      (hint_int (to_int (Z.of_N (arg_glMinor a))));
    glfwWindowHint GLFW_OPENGL_FORWARD_COMPAT GL_TRUE;
    glfwWindowHint GLFW_OPENGL_PROFILE GLFW_OPENGL_CORE_PROFILE;
    glfwWindowHint GLFW_SAMPLES (hint_int (arg_nSamples a));
    glfwWindowHint GLFW_RED_BITS (hint_int (arg_colorBits a));
    glfwWindowHint GLFW_GREEN_BITS (hint_int (arg_colorBits a));
    glfwWindowHint GLFW_BLUE_BITS (hint_int (arg_colorBits a));
    glfwWindowHint GLFW_ALPHA_BITS (hint_int (arg_alphaBits a));
    glfwWindowHint GLFW_STENCIL_BITS (hint_int (arg_stencilBits a));
    glfwWindowHint GLFW_DEPTH_BITS (hint_int (arg_depthBits a));
    glfwWindowHint GLFW_VISIBLE GL_FALSE;
    glfwWindowHint GLFW_RESIZABLE (if arg_resizable a then GL_TRUE else GL_FALSE) ].

Fixpoint calls (cs : list Call) : M unit :=
  match cs with
  | [] => mret tt
  | c :: cs' => call c;; calls cs'
  end.

Fixpoint set_callbacks (ks : list CallbackKind) (w : GLFWwindow) : M unit :=
  match ks with
  | [] => mret tt
  | k :: ks' => setCallback k w;; set_callbacks ks' w
  end.

(** What the constructor does once the window exists. *)
Definition Screen_ctor_with_window (this : addr) (a : ScreenArgs)
    (w : GLFWwindow) : M unit :=
  call (glfwMakeContextCurrent (Some w));;
  glad_init;;
  fbSize ← getFramebufferSize (Some w);
  update this (set_mFBSize fbSize);;
  update this (set_mSize (arg_size a));;
  call (glViewport 0 0 fbSize.1 fbSize.2);;
  s ← read this;
  call (glClearColor (mBackground s));;
  call glClear;;
  call (glfwSwapInterval 0);;
  call (glfwSwapBuffers (Some w));;
  (if apple_platform B then call glfwPollEvents else mret tt);;
  set_callbacks all_callbacks w;;
  initialize this (Some w) true.

(** [Screen::Screen(size, caption, resizable, fullscreen, colorBits,
    alphaBits, depthBits, stencilBits, nSamples, glMajor, glMinor)] *)
Definition Screen_ctor (this : addr) (a : ScreenArgs) : M unit :=
  constructing this
    {| base := ScreenCore_ctor; mGLFWWindow := None;
       mCursors := replicate (CursorCount B) None;
       mBackground := background0 B; mCaption := arg_caption a;
       mShutdownGLFWOnDestruct := false; mFullscreen := arg_fullscreen a |}
    (calls (window_hints a);;
     w ← (if arg_fullscreen a then
            mode ← getPrimaryVideoMode;
            createWindow mode.1 mode.2 (arg_caption a) true
          else
            createWindow (arg_size a).1 (arg_size a).2 (arg_caption a) false);
     update this (set_mGLFWWindow w);;
     match w with
     | None =>
         throw (std_exception
                  ("Could not create an OpenGL " +:+ to_string (arg_glMajor a)
                   +:+ "." +:+ to_string (arg_glMinor a) +:+ " context!"))
     | Some w => Screen_ctor_with_window this a w
     end).

(** The loop of the destructor over [mCursors]. *)
Fixpoint destroy_cursors (cs : list (option GLFWcursor)) : M unit :=
  match cs with
  | [] => mret tt
  | Some c :: cs' => destroyCursor c;; destroy_cursors cs'
  | None :: cs' => destroy_cursors cs'
  end.

(** [Screen::~Screen()]; the object is gone afterwards. *)
Definition Screen_dtor (this : addr) : M unit :=
  s ← read this;
  modify (set_nanogui_screens (delete (mGLFWWindow s)));;
  destroy_cursors (mCursors s);;
  match mGLFWWindow s with
  | Some w => if mShutdownGLFWOnDestruct s then destroyWindow w else mret tt
  | None => mret tt
  end;;
  modify (set_heap (delete this)).

(** [Screen::setVisible(visible)] *)
Definition setVisible (this : addr) (visible : bool) : M unit :=
  s ← read this;
  if negb (eqb (mVisible (base s)) visible) then
    write this (set_mVisible visible s);;
    if visible then call (glfwShowWindow (mGLFWWindow s))
    else call (glfwHideWindow (mGLFWWindow s))
  else mret tt.

(** [Screen::setCaption(caption)] *)
Definition setCaption (this : addr) (caption : string) : M unit :=
  s ← read this;
  if negb (bool_decide (caption = mCaption s)) then
    call (glfwSetWindowTitle (mGLFWWindow s) caption);;
    write this (set_mCaption caption s)
  else mret tt.

(** Modelled from the spec: [Widget::setSize] is declared with [Widget],
    outside of the sources; the specification counts it among what "mutate
    state": it stores the size. *)
Definition Widget_setSize (this : addr) (size : Vector2i) : M unit :=
  update this (set_mSize size).

(** [Screen::setSize(size)] *)
Definition setSize (this : addr) (size : Vector2i) : M unit :=
  Widget_setSize this size;;
  s ← read this;
  if scaled_platform B then
    call (glfwSetWindowSize (mGLFWWindow s)
            (scale B size.1 (mPixelRatio (base s)))
            (scale B size.2 (mPixelRatio (base s))))
  else
    call (glfwSetWindowSize (mGLFWWindow s) size.1 size.2).

(** [Screen::drawAll()]. [drawContents()] and [drawWidgets()] are virtual
    and drawn by the host's means; the invocation is what is recorded. *)
Definition drawAll (this : addr) : M unit :=
  s ← read this;
  call (glClearColor (mBackground s));;
  call glClear;;
  call (glfwMakeContextCurrent (mGLFWWindow s));;
  fb ← getFramebufferSize (mGLFWWindow s);
  update this (set_mFBSize fb);;
  sz ← getWindowSize (mGLFWWindow s);
  update this (set_mSize sz);;
  (if scaled_platform B then
     update this (λ s, set_mSize (vec_div B (mSize (base s)) (mPixelRatio (base s))) s);;
     update this (λ s, set_mFBSize (vec_mul B (mSize (base s)) (mPixelRatio (base s))) s)
   else
     update this (λ s,
       if negb ((mSize (base s)).1 =? 0)
       then set_mPixelRatio (float_quot B (mFBSize (base s)).1 (mSize (base s)).1) s
       else s));;
  s ← read this;
  call (glViewport 0 0 (mFBSize (base s)).1 (mFBSize (base s)).2);;
  call (drawContents this);;
  s ← read this;
  (if mVisible (base s) then call (drawWidgets this) else mret tt);;
  call (glfwSwapBuffers (mGLFWWindow s)).

(** [Screen::resizeCallbackEvent(int, int)] *)
Definition resizeCallbackEvent (this : addr) : M bool :=
  s ← read this;
  fbSize ← getFramebufferSize (mGLFWWindow s);
  size ← getWindowSize (mGLFWWindow s);
  let size := if scaled_platform B
              then vec_div B size (mPixelRatio (base s)) else size in
  if bool_decide (mFBSize (base s) = (0, 0)) || bool_decide (size = (0, 0))
  then mret false
  else
    update this (set_mFBSize fbSize);;
    update this (set_mSize size);;
    try_catch_std
      (s ← read this; resizeEvent this (mSize (base s)))
      (λ what,
         call (cerr ("Caught exception in event handler: " +:+ what));;
         abort).

(** The lambda the constructor sets for each kind of callback, called by the
    host for the window [w]: the [Screen] whose [...CallbackEvent] method it
    ends up calling, if any. *)
Definition screen_callback (w : GLFWwindow) (W : World) : option addr :=
  match nanogui_screens W !! Some w with
  | None => None
  | Some a =>
      s ← heap W !! a;
      if mProcessEvents (base s) then Some a else None
  end.

(** The [Screen] the lambda finds for the window, [it->second]. *)
Definition callback_target (w : GLFWwindow) (W : World) : option addr :=
  nanogui_screens W !! Some w.

(** An input event of kind [k] on the existing window [w]: the host calls
    the callback set for it, if one is set. *)
Definition host_event (k : CallbackKind) (w : GLFWwindow) (W : World)
    : option addr :=
  if bool_decide (is_Some (windows (host W) !! w))
     && bool_decide ((w, k) ∈ callbacks (host W))
  then screen_callback w W
  else None.

(** ** Notions used to state what [resizeCallbackEvent] does *)

(** The window size of a resize event as the code takes it: what the host
    reports, divided by the pixel ratio on Windows and Linux. *)
Definition event_size (s : Screen) (i : Window) : Vector2i :=
  if scaled_platform B then vec_div B (win_size i) (mPixelRatio (base s))
  else win_size i.

(** The guard of [resizeCallbackEvent], on the object [s] when the host
    reports [i]. *)
Definition resize_rejected (s : Screen) (i : Window) : bool :=
  bool_decide (mFBSize (base s) = (0, 0))
  || bool_decide (event_size s i = (0, 0)).

(** The world after the two queries, and the world in which [resizeEvent] is
    called. *)
Definition resize_queried (s : Screen) (W : World) : World :=
  set_host (add_log (glfwGetWindowSize (mGLFWWindow s)))
    (set_host (add_log (glfwGetFramebufferSize (mGLFWWindow s))) W).

Definition resize_accepted (this : addr) (s : Screen) (i : Window) (W : World)
    : World :=
  set_heap <[this := set_mSize (event_size s i) (set_mFBSize (fb_size i) s)]>
    (resize_queried s W).

(** The claim of the specification about exceptions, as it is stated:
    [resizeCallbackEvent] lets no exception through to its caller. *)
Definition never_propagates (this : addr) (W : World) : Prop :=
  ∀ e W', resizeCallbackEvent this W ≠ Throw e W'.

(** ** Notions used to reason about the constructor and the destructor *)

(** When [m], started in a world where [P] holds, returns, [Q] holds of what
    it returns. *)
Definition ensures {A} (m : M A) (P : World → Prop) (Q : A → World → Prop)
    : Prop :=
  ∀ W a W', P W → m W = Return a W' → Q a W'.

(** [m] keeps the invariant [I] when it returns. *)
Definition keeps {A} (m : M A) (I : World → Prop) : Prop :=
  ensures m I (λ _, I).

(** The changes of the host that add to it: a logged call, a new cursor, a
    callback set, a pending answer consumed, a window created. *)
Inductive grows : (Host → Host) → Prop :=
  | grows_log c : grows (add_log c)
  | grows_cursor c : grows (set_cursors (λ cs, {[c]} ∪ cs))
  | grows_callback w k : grows (add_callback w k)
  | grows_pending l : grows (set_pending_windows l)
  | grows_window w i : grows (set_windows <[w := i]>).

(** An invariant that a growing host and the flag of the loader do not
    disturb. *)
Definition stable (I : World → Prop) : Prop :=
  (∀ W f, grows f → I W → I (set_host f W)) ∧
  (∀ W b, I W → I (set_gladInitialized b W)).

(** An invariant that the change [f] of the object at [this] does not
    disturb. *)
Definition obj_stable (this : addr) (f : Screen → Screen) (I : World → Prop)
    : Prop :=
  ∀ W s, heap W !! this = Some s → I W → I (set_heap <[this := f s]> W).

(** The invariants of the constructor: the window [w] exists; the object at
    [this] satisfies [P]; the callbacks of the constructor are set for [w];
    the registry maps [w] to [this]. *)
Definition live (w : GLFWwindow) (W : World) : Prop :=
  is_Some (windows (host W) !! w).

Definition obj (this : addr) (P : Screen → Prop) (W : World) : Prop :=
  ∃ s, heap W !! this = Some s ∧ P s.

Definition callbacks_set (w : GLFWwindow) (ks : list CallbackKind) (W : World)
    : Prop :=
  ∀ k, k ∈ ks → (w, k) ∈ callbacks (host W).

Definition registered (w : GLFWwindow) (this : addr) (W : World) : Prop :=
  nanogui_screens W !! Some w = Some this.

(** The four together; the registry only once [reg] is set. *)
Definition ctor_inv (w : GLFWwindow) (this : addr) (P : Screen → Prop)
    (ks : list CallbackKind) (reg : bool) (W : World) : Prop :=
  live w W ∧ obj this P W ∧ callbacks_set w ks W ∧
  (reg = true → registered w this W).

(** The window [glfwCreateWindow] will return next, if any. *)
Definition next_window (h : Host) : option (GLFWwindow * Window) :=
  match pending_windows h with
  | Some x :: _ => Some x
  | _ => None
  end.

(** The message of the error thrown when no window could be created. *)
Definition no_context_message (a : ScreenArgs) : string :=
  "Could not create an OpenGL " +:+ to_string (arg_glMajor a)
  +:+ "." +:+ to_string (arg_glMinor a) +:+ " context!".

(** The program has asked the host for a window at some point. *)
Definition is_create_window (c : Call) : bool :=
  match c with glfwCreateWindow _ _ _ _ => true | _ => false end.

Definition asked_for_window (W : World) : Prop :=
  existsb is_create_window (log (host W)) = true.

(** The claim of the specification about the window of a [Screen] that is
    destroyed, as it is stated: the destructor destroys it only when the
    program created it. *)
Definition destroys_only_created_window (this : addr) (W : World) : Prop :=
  ∀ s w W',
    heap W !! this = Some s → mGLFWWindow s = Some w → live w W →
    Screen_dtor this W = Return tt W' → ¬ live w W' →
    asked_for_window W.

(** What the loop of the destructor over the cursors does to the host. *)
Fixpoint destroy_cursors_host (cs : list (option GLFWcursor)) (h : Host) : Host :=
  match cs with
  | [] => h
  | Some c :: cs' =>
      destroy_cursors_host cs'
        (set_cursors (λ x, x ∖ {[c]}) (add_log (glfwDestroyCursor c) h))
  | None :: cs' => destroy_cursors_host cs' h
  end.

(** ** Notions used to state the order of the calls of [drawAll] *)

Definition is_size_query (c : Call) : bool :=
  match c with
  | glfwGetFramebufferSize _ | glfwGetWindowSize _ => true
  | _ => false
  end.

Definition is_clear (c : Call) : bool :=
  match c with glClear => true | _ => false end.

Fixpoint first_index (p : Call → bool) (l : list Call) : option nat :=
  match l with
  | [] => None
  | c :: l' => if p c then Some 0%nat else S <$> first_index p l'
  end.

(** The first call that satisfies [p] comes before the first that satisfies
    [q]. *)
Definition first_precedes (p q : Call → bool) (l : list Call) : bool :=
  match first_index p l, first_index q l with
  | Some i, Some j => (i <? j)%nat
  | _, _ => false
  end.

(** The calls made between the worlds [W] and [W']. *)
Definition calls_since (W W' : World) : list Call :=
  drop (length (log (host W))) (log (host W')).

(** The order of the specification, as it is stated: [drawAll] asks for the
    sizes before it clears the buffer. *)
Definition sizes_before_clear (this : addr) (W : World) : Prop :=
  ∀ W', drawAll this W = Return tt W' →
    first_precedes is_size_query is_clear (calls_since W W') = true.

(** The short-circuit of the specification for [setSize], as it is stated:
    called with the stored size, it changes nothing and calls nothing. *)
Definition setSize_short_circuits (this : addr) (W : World) : Prop :=
  ∀ s, heap W !! this = Some s → setSize this (mSize (base s)) W = Return tt W.

(** The window system changes what it reports of the window [w]. *)
Definition host_reports (w : GLFWwindow) (i : Window) (W : World) : World :=
  set_host (set_windows <[w := i]>) W.

(** ** Further functions of [screen.cpp], and notions to state what they do *)

(** [dropEvent(filenames)], a virtual method of the widget tree, and the
    message of the [std::length_error] of the standard library. *)
Variable dropEvent : addr → list string → M bool.
Variable length_error_what : string.

(** [Screen::dropCallbackEvent(count, filenames)], on the array [filenames]
    of the host. [std::vector<std::string> arg(count)] converts a negative
    [count] to a size beyond [max_size()] and throws; the loop reads
    [filenames[i]] for every [i] below [count], beyond the array when
    [count] exceeds its length. *)
Definition dropCallbackEvent (this : addr) (count : Z) (filenames : list string)
    : M bool :=
  if count <? 0 then throw (std_exception length_error_what)
  else if Z.of_nat (length filenames) <? count then undefined
  else dropEvent this (take (Z.to_nat count) filenames).

(** [Screen::setCursorAppearance(c)]: the window and the cursor it hands to
    [glfwSetCursor]; [mCursors[c]] is read, within the array or not. *)
Definition setCursorAppearance (this : addr) (c : Z)
    : M (option GLFWwindow * option GLFWcursor) :=
  s ← read this;
  if 0 <=? c then
    match mCursors s !! Z.to_nat c with
    | Some cursor => mret (mGLFWWindow s, cursor)
    | None => undefined
    end
  else undefined.

(** The window system reports [reports] of the window [w], one after the
    other, each followed by its framebuffer-size event for the [Screen] at
    [this]; the answers of [resizeCallbackEvent] are collected. *)
Fixpoint resize_events (this : addr) (w : GLFWwindow) (reports : list Window)
    : M (list bool) :=
  match reports with
  | [] => mret []
  | i :: reports' =>
      modify (host_reports w i);;
      b ← resizeCallbackEvent this;
      bs ← resize_events this w reports';
      mret (b :: bs)
  end.

(** What [glfwCreateStandardCursor] answers for the shape [i], on a host
    that has the cursors [answers] in store. *)
Definition cursor_answer (answers : list (option GLFWcursor)) (i : nat)
    : option GLFWcursor :=
  match answers !! i with
  | Some (Some c) => Some c
  | _ => None
  end.

(** The table of cursors after the loop of [initialize] over [shapes]. *)
Definition cursor_table (answers : list (option GLFWcursor))
    (shapes : list nat) (cs : list (option GLFWcursor))
    : list (option GLFWcursor) :=
  foldl (λ cs i, <[i := cursor_answer answers i]> cs) cs shapes.

(** The pixel ratio [get_pixel_ratio] finds for a window of which the host
    reports [i]. *)
Definition found_pixel_ratio (h : Host) (i : Window) : float :=
  if scaled_platform B then os_pixel_ratio h
  else float_quot B (fb_size i).1 (win_size i).1.

(** The base subobject [initialize] hands to [ScreenCore::init]. *)
Definition core_before_init (h : Host) (i : Window) (c : ScreenCore)
    : ScreenCore :=
  core_set_mPixelRatio (found_pixel_ratio h i)
    (core_set_mFBSize (fb_size i) (core_set_mSize (win_size i) c)).

(** The object a constructor starts from. *)
Definition fresh_screen (caption : string) (fullscreen : bool) : Screen :=
  {| base := ScreenCore_ctor; mGLFWWindow := None;
     mCursors := replicate (CursorCount B) None;
     mBackground := background0 B; mCaption := caption;
     mShutdownGLFWOnDestruct := false; mFullscreen := fullscreen |}.

(** The calls by which the constructor asks for its window. *)
Definition window_request (a : ScreenArgs) (h : Host) : list Call :=
  window_hints a
  ++ (if arg_fullscreen a then
        [glfwGetPrimaryMonitor; glfwGetVideoMode;
         glfwCreateWindow (default (0, 0) (primary_monitor h)).1
           (default (0, 0) (primary_monitor h)).2 (arg_caption a) true]
      else
        [glfwCreateWindow (arg_size a).1 (arg_size a).2 (arg_caption a) false]).

(** The object [initialize(w, flag)] leaves when [ScreenCore::init] has made
    [c] of the base subobject, on a host [h] that reports [i] of [w]. *)
Definition initialized_screen (w : GLFWwindow) (flag : bool) (h : Host)
    (i : Window) (c : ScreenCore) (s : Screen) : Screen :=
  {| base := core_set_mVisible (win_visible i) c;
     mGLFWWindow := Some w;
     mCursors := cursor_table (std_cursors h) (seq 0 (CursorCount B))
                   (mCursors s);
     mBackground := mBackground s; mCaption := mCaption s;
     mShutdownGLFWOnDestruct := flag; mFullscreen := mFullscreen s |}.

(** The loader has still to run, and will fail. *)
Definition loader_fails (W : World) : bool :=
  NANOGUI_GLAD B && negb (gladInitialized W) && negb (loader_ok (host W)).

(** The calls by which [get_pixel_ratio] finds the ratio. *)
Definition ratio_calls (w : GLFWwindow) : list Call :=
  if scaled_platform B then []
  else [glfwGetFramebufferSize (Some w); glfwGetWindowSize (Some w)].

(** The calls of the block under [NANOGUI_GLAD] when the loader succeeds. *)
Definition loader_calls (W : World) : list Call :=
  if NANOGUI_GLAD B && negb (gladInitialized W)
  then [gladLoadGLLoader; glGetError] else [].

(** The calls of [initialize(w, flag)] on the object [s], in a world [W]
    whose host reports [i] of [w]. *)
Definition initialize_calls (w : GLFWwindow) (W : World) (i : Window)
    (s : Screen) : list Call :=
  [glfwGetWindowSize (Some w); glfwGetFramebufferSize (Some w)]
  ++ ratio_calls w
  ++ (if scaled_platform B then
        if negb (is_one B (os_pixel_ratio (host W))) && negb (mFullscreen s)
        then [glfwSetWindowSize (Some w)
                (scale B (win_size i).1 (os_pixel_ratio (host W)))
                (scale B (win_size i).2 (os_pixel_ratio (host W)))]
        else []
      else [])
  ++ loader_calls W
  ++ ratio_calls w
  ++ [glfwGetWindowAttrib_VISIBLE (Some w)]
  ++ map glfwCreateStandardCursor (seq 0 (CursorCount B)).

(** The object of the constructor when it calls [initialize], and the calls
    it has made by then, for the window [w] of which the host reports [i]. *)
Definition prepared_screen (a : ScreenArgs) (w : GLFWwindow) (i : Window)
    : Screen :=
  set_mSize (arg_size a)
    (set_mFBSize (fb_size i)
       (set_mGLFWWindow (Some w)
          (fresh_screen (arg_caption a) (arg_fullscreen a)))).

Definition constructor_calls (a : ScreenArgs) (w : GLFWwindow) (i : Window)
    (W : World) : list Call :=
  window_request a (host W)
  ++ [glfwMakeContextCurrent (Some w)]
  ++ loader_calls W
  ++ [glfwGetFramebufferSize (Some w);
      glViewport 0 0 (fb_size i).1 (fb_size i).2;
      glClearColor (background0 B); glClear;
      glfwSwapInterval 0; glfwSwapBuffers (Some w)]
  ++ (if apple_platform B then [glfwPollEvents] else [])
  ++ map (λ k, glfwSetCallback k (Some w)) all_callbacks.

(** The object after [drawAll], on a host that reports [i] of its window. *)
Definition drawn_screen (i : Window) (s : Screen) : Screen :=
  if scaled_platform B then
    let size := vec_div B (win_size i) (mPixelRatio (base s)) in
    set_mFBSize (vec_mul B size (mPixelRatio (base s))) (set_mSize size s)
  else
    let s1 := set_mSize (win_size i) (set_mFBSize (fb_size i) s) in
    if negb ((win_size i).1 =? 0)
    then set_mPixelRatio (float_quot B (fb_size i).1 (win_size i).1) s1
    else s1.

(** The calls of [drawAll] on the object [s] with the window [w], on a host
    that reports [i] of it. *)
Definition drawAll_calls (this : addr) (w : GLFWwindow) (i : Window)
    (s : Screen) : list Call :=
  [glClearColor (mBackground s); glClear; glfwMakeContextCurrent (Some w);
   glfwGetFramebufferSize (Some w); glfwGetWindowSize (Some w);
   glViewport 0 0 (mFBSize (base (drawn_screen i s))).1
     (mFBSize (base (drawn_screen i s))).2;
   drawContents this]
  ++ (if mVisible (base s) then [drawWidgets this] else [])
  ++ [glfwSwapBuffers (Some w)].

End model.

Global Arguments glfwWindowHint {B}.
Global Arguments glfwGetPrimaryMonitor {B}.
Global Arguments glfwGetVideoMode {B}.
Global Arguments glfwCreateWindow {B}.
Global Arguments glfwMakeContextCurrent {B}.
Global Arguments gladLoadGLLoader {B}.
Global Arguments glGetError {B}.
Global Arguments glfwGetFramebufferSize {B}.
Global Arguments glfwGetWindowSize {B}.
Global Arguments glfwGetWindowAttrib_VISIBLE {B}.
Global Arguments glViewport {B}.
Global Arguments glClearColor {B}.
Global Arguments glClear {B}.
Global Arguments glfwSwapInterval {B}.
Global Arguments glfwSwapBuffers {B}.
Global Arguments glfwPollEvents {B}.
Global Arguments glfwSetCallback {B}.
Global Arguments glfwSetWindowSize {B}.
Global Arguments glfwShowWindow {B}.
Global Arguments glfwHideWindow {B}.
Global Arguments glfwSetWindowTitle {B}.
Global Arguments glfwCreateStandardCursor {B}.
Global Arguments glfwDestroyCursor {B}.
Global Arguments glfwDestroyWindow {B}.
Global Arguments drawContents {B}.
Global Arguments drawWidgets {B}.
Global Arguments cerr {B}.
Global Arguments Return {B A}.
Global Arguments Throw {B A}.
Global Arguments Abort {B A}.
Global Arguments Undefined {B A}.
Global Arguments mSize {B}.
Global Arguments mVisible {B}.
Global Arguments mFBSize {B}.
Global Arguments mPixelRatio {B}.
Global Arguments mProcessEvents {B}.
Global Arguments base {B}.
Global Arguments mGLFWWindow {B}.
Global Arguments mCursors {B}.
Global Arguments mBackground {B}.
Global Arguments mCaption {B}.
Global Arguments mShutdownGLFWOnDestruct {B}.
Global Arguments mFullscreen {B}.
Global Arguments windows {B}.
Global Arguments cursors {B}.
Global Arguments callbacks {B}.
Global Arguments log {B}.
Global Arguments heap {B}.
Global Arguments nanogui_screens {B}.
Global Arguments gladInitialized {B}.
Global Arguments host {B}.
(** ** An example build and world

    A build for a platform other than Windows and Linux, with GLAD, six
    cursor shapes, and exact rational arithmetic standing in for single
    precision. *)
Definition example_build : Build :=
  {| float := Q; scaled_platform := false; apple_platform := true;
     NANOGUI_GLAD := true; CursorCount := 6;
     background0 := (3 # 10, 3 # 10, 32 # 100, 1)%Q;
     float_quot := λ a b, (inject_Z a / inject_Z b)%Q;
     is_one := λ r, Qeq_bool r 1;
     scale := λ x r, Qfloor (inject_Z x * r);
     vec_div := λ v r, (Qfloor (inject_Z v.1 / r), Qfloor (inject_Z v.2 / r));
     vec_mul := λ v r, (Qfloor (inject_Z v.1 * r), Qfloor (inject_Z v.2 * r)) |}.

Definition example_core : ScreenCore example_build :=
  Build_ScreenCore example_build (0, 0) true (0, 0) 1%Q false.

(** A base initialisation that stores the pixel ratio and starts the
    processing of events. *)
Definition example_init (size : Vector2i) (r : Q)
    (c : ScreenCore example_build) : exn + ScreenCore example_build :=
  inr (Build_ScreenCore example_build (mSize c) (mVisible c) (mFBSize c)
         r true).

Definition example_args : ScreenArgs :=
  {| arg_size := (800, 600); arg_caption := "NanoGUI"; arg_resizable := true;
     arg_fullscreen := false; arg_colorBits := 8; arg_alphaBits := 8;
     arg_depthBits := 24; arg_stencilBits := 8; arg_nSamples := 0;
     arg_glMajor := 3; arg_glMinor := 3 |}.

(** A host about to create the window 1, 800 by 600 with a framebuffer of
    1600 by 1200, and the six standard cursors. *)
Definition example_host : Host example_build :=
  Build_Host example_build ∅ ∅ [] []
    (Some (1920, 1080))
    [Some (1%positive,
           {| fb_size := (1600, 1200); win_size := (800, 600);
              win_visible := false |})]
    true
    [Some 1%positive; Some 2%positive; Some 3%positive;
     Some 4%positive; Some 5%positive; Some 6%positive]
    1%Q.

Definition world0 : World example_build :=
  {| heap := ∅; nanogui_screens := ∅; gladInitialized := false;
     host := example_host |}.

Definition world_of {A} (r : outcome example_build A) : World example_build :=
  match r with
  | Return _ W | Throw _ W | Abort W => W
  | Undefined => world0
  end.

Definition constructed : outcome example_build unit :=
  Screen_ctor example_build example_core example_init 1%positive example_args world0.

(** The world the constructor leaves, and the object in it. *)
Definition constructed_world : World example_build :=
  Eval vm_compute in world_of constructed.

Definition constructed_screen : Screen example_build :=
  Build_Screen example_build
    (Build_ScreenCore example_build (800, 600) false (1600, 1200)
       (1600 # 800)%Q true)
    (Some 1%positive)
    [Some 1%positive; Some 2%positive; Some 3%positive;
     Some 4%positive; Some 5%positive; Some 6%positive]
    (3 # 10, 3 # 10, 32 # 100, 1)%Q "NanoGUI" true false.

(** Three resize handlers: one that accepts the size, one that throws a
    [std::runtime_error], one that throws an [int]. *)
Definition handler_accepts : addr → Vector2i → M example_build bool :=
  λ _ _, mret true.

Definition handler_throws_std : addr → Vector2i → M example_build bool :=
  λ _ _, throw example_build (std_exception "layout failed").

Definition handler_throws_int : addr → Vector2i → M example_build bool :=
  λ _ _, throw example_build other_exception.

(** The host reports a framebuffer of no size for a window of 800 by 600,
    and the resize event for it is handled. *)
Definition empty_framebuffer : World example_build :=
  Eval vm_compute in
    host_reports example_build 1%positive
      {| fb_size := (0, 0); win_size := (800, 600); win_visible := true |}
      constructed_world.

Definition after_empty_framebuffer : World example_build :=
  Eval vm_compute in
    world_of (resizeCallbackEvent example_build handler_accepts 1%positive
                empty_framebuffer).

(** The window is iconified, with no size at all, and a frame is drawn; then
    it is restored, and the resize event for that is handled. *)
Definition iconified : World example_build :=
  Eval vm_compute in
    host_reports example_build 1%positive
      {| fb_size := (0, 0); win_size := (0, 0); win_visible := true |}
      constructed_world.

Definition after_iconified_frame : World example_build :=
  Eval vm_compute in world_of (drawAll example_build 1%positive iconified).

Definition restored : World example_build :=
  Eval vm_compute in
    host_reports example_build 1%positive
      {| fb_size := (1600, 1200); win_size := (800, 600); win_visible := true |}
      after_iconified_frame.

Definition after_restored : World example_build :=
  Eval vm_compute in
    world_of (resizeCallbackEvent example_build handler_accepts 1%positive restored).

(** The worlds after a resize event whose handler throws, and after
    [drawAll]. *)
Definition after_std_exception : World example_build :=
  Eval vm_compute in
    world_of (resizeCallbackEvent example_build handler_throws_std 1%positive
                constructed_world).

Definition after_int_exception : World example_build :=
  Eval vm_compute in
    world_of (resizeCallbackEvent example_build handler_throws_int 1%positive
                constructed_world).

Definition drawn_world : World example_build :=
  Eval vm_compute in world_of (drawAll example_build 1%positive constructed_world).

(** A host with a window 7 of its own making and nothing in store, and the
    world in which a default-constructed [Screen] has been initialised with
    that window and told to shut it down. *)
Definition external_host : Host example_build :=
  Build_Host example_build
    {[ 7%positive := {| fb_size := (640, 480); win_size := (640, 480);
                        win_visible := true |} ]}
    ∅ [] [] None [] true [] 1%Q.

Definition external_world0 : World example_build :=
  {| heap := ∅; nanogui_screens := ∅; gladInitialized := true;
     host := external_host |}.

Definition external_world_constructed : World example_build :=
  Eval vm_compute in
    world_of (Screen_default_ctor example_build example_core 1%positive
                external_world0).

Definition external_world : World example_build :=
  Eval vm_compute in
    world_of (initialize example_build example_init 1%positive
                (Some 7%positive) true external_world_constructed).

Definition external_world_destroyed : World example_build :=
  Eval vm_compute in
    world_of (Screen_dtor example_build 1%positive external_world).

Definition external_screen : Screen example_build :=
  Build_Screen example_build
    (Build_ScreenCore example_build (640, 480) true (640, 480)
       (640 # 640)%Q true)
    (Some 7%positive)
    [None; None; None; None; None; None]
    (3 # 10, 3 # 10, 32 # 100, 1)%Q "" true false.

(** Hosts that fail: one that has no window to give, one whose GL loader
    fails. *)
Definition world_without_window : World example_build :=
  Eval vm_compute in
    set_host example_build (set_pending_windows example_build []) world0.

Definition failing_loader_host : Host example_build :=
  Build_Host example_build ∅ ∅ [] []
    (Some (1920, 1080))
    [Some (1%positive,
           {| fb_size := (1600, 1200); win_size := (800, 600);
              win_visible := false |})]
    false [] 1%Q.

Definition world_with_failing_loader : World example_build :=
  {| heap := ∅; nanogui_screens := ∅; gladInitialized := false;
     host := failing_loader_host |}.

(** The object left by the frame drawn while the window was iconified:
    it stores no framebuffer size. *)
Definition iconified_screen : Screen example_build :=
  Build_Screen example_build
    (Build_ScreenCore example_build (0, 0) false (0, 0) (1600 # 800)%Q true)
    (Some 1%positive)
    [Some 1%positive; Some 2%positive; Some 3%positive;
     Some 4%positive; Some 5%positive; Some 6%positive]
    (3 # 10, 3 # 10, 32 # 100, 1)%Q "NanoGUI" true false.

(** The world after the destructor of the constructed [Screen]. *)
Definition destroyed_world : World example_build :=
  Eval vm_compute in
    world_of (Screen_dtor example_build 1%positive constructed_world).

(** A base initialisation that throws, and the world [initialize] leaves
    with it. *)
Definition throwing_init (size : Vector2i) (r : Q)
    (c : ScreenCore example_build) : exn + ScreenCore example_build :=
  inl (std_exception "no theme").

Definition external_world_failed : World example_build :=
  Eval vm_compute in
    world_of (initialize example_build throwing_init 1%positive
                (Some 7%positive) true external_world_constructed).

(** A drop handler that accepts what it is given when there are two names. *)
Definition handler_two_files : addr → list string → M example_build bool :=
  λ _ names, mret (bool_decide (length names = 2%nat)).

(** The arguments of a full-screen window, and a host without a monitor. *)
Definition fullscreen_args : ScreenArgs :=
  {| arg_size := (800, 600); arg_caption := "NanoGUI"; arg_resizable := true;
     arg_fullscreen := true; arg_colorBits := 8; arg_alphaBits := 8;
     arg_depthBits := 24; arg_stencilBits := 8; arg_nSamples := 0;
     arg_glMajor := 3; arg_glMinor := 3 |}.

Definition headless_world : World example_build :=
  {| heap := ∅; nanogui_screens := ∅; gladInitialized := false;
     host := Build_Host example_build ∅ ∅ [] [] None
               [Some (1%positive,
                      {| fb_size := (1600, 1200); win_size := (800, 600);
                         win_visible := false |})]
               true [] 1%Q |}.

(** Arguments that ask for the OpenGL version 4294967295.3. *)
Definition wrapping_args : ScreenArgs :=
  {| arg_size := (800, 600); arg_caption := "NanoGUI"; arg_resizable := true;
     arg_fullscreen := false; arg_colorBits := 8; arg_alphaBits := 8;
     arg_depthBits := 24; arg_stencilBits := 8; arg_nSamples := 0;
     arg_glMajor := 4294967295; arg_glMinor := 3 |}.

(** ** Tactics

    Running a computation symbolically: the operations of the monad are
    unfolded and the lookups of the hypotheses rewritten. *)
Ltac unfold_M :=
  unfold update; unfold read, write, call; unfold modify, get, undefined, throw, abort;
  unfold mbind, M_bind, mret, M_ret.

Ltac run_with Hs Hw Hi :=
  unfold_M; cbn;
  repeat (first [rewrite Hs | rewrite Hw | rewrite Hi
                 | rewrite lookup_insert_eq | rewrite insert_insert_eq]; cbn).

(** An equation between closed terms, decided by evaluation. *)
Ltac computed :=
  lazymatch goal with |- _ = ?b => vm_cast_no_check (eq_refl b) end.

End Screen.

(** * Facts about RadioButton *)
Module RadioFacts.
Import Radio.

Lemma swap_icons_involutive (w : widget) : swap_icons (swap_icons w) = w.
Proof. by destruct w. Qed.

Lemma iter_swap_icons (n : nat) (w : widget) :
  Nat.iter n swap_icons w = if Nat.even n then w else swap_icons w.
Proof.
  induction n as [|n IH]; [done|].
  rewrite Nat.even_succ, <- Nat.negb_even. simpl. rewrite IH.
  destruct (Nat.even n); simpl; [done|apply swap_icons_involutive].
Qed.

Lemma visits_cons (b a : addr) (l : list addr) :
  visits b (a :: l) = if bool_decide (a = b) then S (visits b l) else visits b l.
Proof.
  unfold visits. rewrite filter_cons.
  case_bool_decide; case_decide; simpl; congruence.
Qed.

Lemma visits_not_elem_of (b : addr) (l : list addr) :
  b ∉ l → visits b l = 0%nat.
Proof.
  induction l as [|a l IH]; [done|].
  intros [Hne Hl]%not_elem_of_cons. rewrite visits_cons.
  by rewrite bool_decide_eq_false_2, IH by congruence.
Qed.

Section toggle_facts.

Set Default Proof Using "Type".

Variable Flags_RadioButton : Z.
Variable base_toggle : addr → store → option store.

Abbreviation swapped_peer := (Radio.swapped_peer Flags_RadioButton).
Abbreviation step_at := (Radio.step_at Flags_RadioButton).
Abbreviation toggle := (RadioButton_toggle Flags_RadioButton base_toggle).

Lemma visit_child_step this s a s1 b :
  visit_child Flags_RadioButton this s a = Some s1 →
  s1 !! b = step_at this s a b <$> s !! b.
Proof.
  unfold visit_child, step_at, Radio.swapped_peer, peer_swapped.
  destruct (s !! a) as [w|] eqn:Ha; simpl; [|done].
  destruct (peer_selected _ this a w), (is_RadioButton w); simpl;
    intros [= <-]; rewrite ?option_fmap_id; try done.
  case_bool_decide as Hb; subst.
  - by rewrite lookup_insert_eq, Ha.
  - by rewrite lookup_insert_ne, option_fmap_id.
Qed.

Lemma visit_member_step this s a s1 b :
  visit_member Flags_RadioButton this s a = Some s1 →
  s1 !! b = step_at this s a b <$> s !! b.
Proof.
  unfold visit_member, step_at, Radio.swapped_peer, peer_swapped, peer_selected.
  case_bool_decide as Hthis; simpl.
  - intros [= <-]. destruct (s !! a); simpl;
      rewrite ?andb_false_r; simpl; by rewrite ?option_fmap_id.
  - destruct (s !! a) as [w|] eqn:Ha; simpl; [|done].
    destruct (is_Button w); simpl; [|done].
    destruct (has_radio_flag _ w && mPushed w), (is_RadioButton w); simpl;
      intros [= <-]; rewrite ?option_fmap_id; try done.
    case_bool_decide as Hb; subst.
    + by rewrite lookup_insert_eq, Ha.
    + by rewrite lookup_insert_ne, option_fmap_id.
Qed.

Lemma swapped_peer_step this s s1 a b :
  (∀ b, s1 !! b = step_at this s a b <$> s !! b) →
  swapped_peer this s1 b = swapped_peer this s b.
Proof.
  intros H. unfold Radio.swapped_peer. rewrite H.
  destruct (s !! b) as [w|]; simpl; [|done].
  unfold Radio.step_at. by destruct (_ && _).
Qed.

Lemma loop_at_nil this s b w : loop_at Flags_RadioButton this s [] b w = w.
Proof. unfold loop_at. by destruct (swapped_peer this s b). Qed.

(** The loop, for either body: each object ends up with its icons swapped
    once for every time it was come across as a selected peer. *)
Lemma for_each_lookup body this l :
  (∀ s a s1 b, body s a = Some s1 → s1 !! b = step_at this s a b <$> s !! b) →
  ∀ s s1 b, for_each body l s = Some s1 →
    s1 !! b = loop_at Flags_RadioButton this s l b <$> s !! b.
Proof.
  intros Hbody. induction l as [|a l IH]; intros s s1 b; simpl.
  - intros [= <-]. destruct (s !! b); simpl; [|done].
    by rewrite loop_at_nil.
  - destruct (body s a) as [s2|] eqn:Hstep; simpl; [|done].
    intros Hrest. rewrite (IH _ _ b Hrest), (Hbody _ _ _ b Hstep).
    destruct (s !! b) as [w|] eqn:Hb; simpl; [|done]. f_equal.
    unfold loop_at.
    rewrite (swapped_peer_step this s s2 a b) by (intros; by apply Hbody).
    rewrite visits_cons. unfold Radio.step_at.
    destruct (swapped_peer this s a) eqn:Ha; simpl.
    + case_bool_decide as Hba; subst.
      * rewrite Ha, bool_decide_eq_true_2 by done.
        by rewrite Nat.iter_succ_r.
      * by rewrite (bool_decide_eq_false_2 (a = b)) by congruence.
    + case_bool_decide as Hab; subst; [by rewrite Ha|done].
Qed.

(** The loop over the children is defined when every child is an object of
    the store. *)
Lemma for_each_child_defined this l s :
  (∀ a, a ∈ l → is_Some (s !! a)) →
  is_Some (for_each (visit_child Flags_RadioButton this) l s).
Proof.
  revert s. induction l as [|a l IH]; intros s Hl; simpl; [by eexists|].
  destruct (Hl a) as [w Hw]; [by left|].
  destruct (visit_child Flags_RadioButton this s a) as [s2|] eqn:Hstep.
  - simpl. apply IH. intros c Hc.
    rewrite (visit_child_step _ _ _ _ c Hstep).
    apply fmap_is_Some, Hl. by right.
  - exfalso. revert Hstep. unfold visit_child. rewrite Hw. simpl.
    by destruct (peer_selected _ _ _ _), (is_RadioButton w).
Qed.

(** The loop over the explicit group is defined when every member is a
    [Button] of the store. *)
Lemma for_each_member_defined this l s :
  (∀ a, a ∈ l → ∃ w, s !! a = Some w ∧ is_Button w = true) →
  is_Some (for_each (visit_member Flags_RadioButton this) l s).
Proof.
  revert s. induction l as [|a l IH]; intros s Hl; simpl; [by eexists|].
  destruct (Hl a) as (w & Hw & Hbtn); [by left|].
  destruct (visit_member Flags_RadioButton this s a) as [s2|] eqn:Hstep.
  - simpl. apply IH. intros c Hc.
    destruct (Hl c) as (wc & Hwc & Hcb); [by right|].
    rewrite (visit_member_step _ _ _ _ c Hstep), Hwc. simpl.
    eexists; split; [done|].
    unfold Radio.step_at. by destruct (_ && _).
  - exfalso. revert Hstep. unfold visit_member.
    destruct (bool_decide (a = this)); [done|].
    rewrite Hw. simpl. rewrite Hbtn.
    by destruct (has_radio_flag Flags_RadioButton w && mPushed w),
      (is_RadioButton w).
Qed.

(** [toggle] taken apart: the peers are enumerated, the loop runs over them,
    the button's own icons are swapped, and the store so obtained is handed
    to the base class. *)
Lemma toggle_inv this s r :
  toggle this s = r → is_Some r →
  ∃ me l s1,
    s !! this = Some me ∧ is_RadioButton me = true ∧
    peers this s = Some l ∧
    base_toggle this s1 = r ∧
    ∀ b, s1 !! b = before_base_at Flags_RadioButton this s l b <$> s !! b.
Proof.
  unfold RadioButton_toggle, peers. intros <- Hr.
  destruct (s !! this) as [me|] eqn:Hme; simpl in *; [|by destruct Hr].
  destruct (is_RadioButton me) eqn:Hrb; [|by destruct Hr].
  assert (∃ l, (match mButtonGroup me with
                | [] => p ← mParent me; pw ← s !! p; Some (mChildren pw)
                | g => Some g end = Some l) ∧
               ∀ s0, match mButtonGroup me with
                | [] => p ← mParent me; pw ← s !! p;
                        for_each (visit_child Flags_RadioButton this) (mChildren pw) s
                | g => for_each (visit_member Flags_RadioButton this) g s
                end = Some s0 →
                ∀ b, s0 !! b = loop_at Flags_RadioButton this s l b <$> s !! b)
    as (l & Hl & Hloop).
  { destruct (mButtonGroup me) as [|g0 g] eqn:Hg.
    - destruct (mParent me) as [p|]; simpl in *; [|by destruct Hr].
      destruct (s !! p) as [pw|]; simpl in *; [|by destruct Hr].
      eexists; split; [done|]. intros s0 H0 b.
      eapply for_each_lookup; [|done]. intros. by eapply visit_child_step.
    - eexists; split; [done|]. intros s0 H0 b.
      eapply for_each_lookup; [|done]. intros. by eapply visit_member_step. }
  rewrite Hl.
  destruct (match mButtonGroup me with [] => _ | _ => _ end) as [s0|] eqn:H0;
    simpl in *; [|by destruct Hr].
  specialize (Hloop s0 eq_refl).
  destruct (s0 !! this) as [me1|] eqn:Hme1; simpl in *; [|by destruct Hr].
  eexists me, l, _. repeat split; try done.
  intros b. unfold before_base_at. case_bool_decide as Hb; subst.
  - rewrite lookup_insert_eq, Hme. simpl. f_equal.
    rewrite Hloop, Hme in Hme1. simpl in Hme1. injection Hme1 as <-.
    unfold loop_at, Radio.swapped_peer. rewrite Hme. unfold peer_swapped, peer_selected.
    rewrite bool_decide_eq_true_2 by done.
    by rewrite andb_false_r.
  - by rewrite lookup_insert_ne, Hloop.
Qed.

(** Under [peers_valid] the loops are defined, whatever the base class does
    afterwards. *)
Lemma toggle_defined this s me l :
  s !! this = Some me → is_RadioButton me = true →
  peers this s = Some l → peers_valid this s l →
  ∃ s1, toggle this s = base_toggle this s1 ∧
    ∀ b, s1 !! b = before_base_at Flags_RadioButton this s l b <$> s !! b.
Proof.
  intros Hme Hrb Hl Hvalid.
  assert (∃ s0, match mButtonGroup me with
                | [] => p ← mParent me; pw ← s !! p;
                        for_each (visit_child Flags_RadioButton this) (mChildren pw) s
                | g => for_each (visit_member Flags_RadioButton this) g s
                end = Some s0 ∧
               ∀ b, s0 !! b = loop_at Flags_RadioButton this s l b <$> s !! b)
    as (s0 & H0 & Hloop).
  { revert Hl. unfold peers. rewrite Hme. simpl.
    destruct (mButtonGroup me) as [|g0 g] eqn:Hg.
    - destruct (mParent me) as [p|]; simpl; [|done].
      destruct (s !! p) as [pw|]; simpl; [|done]. intros [= <-].
      destruct (for_each_child_defined this (mChildren pw) s) as [s0 H0].
      { intros a Ha. destruct (Hvalid a Ha) as (w & -> & _). by eexists. }
      exists s0. split; [done|]. intros b.
      eapply for_each_lookup; [|done]. intros. by eapply visit_child_step.
    - intros [= <-].
      destruct (for_each_member_defined this (g0 :: g) s) as [s0 H0].
      { intros a Ha. destruct (Hvalid a Ha) as (w & Hw & Hb).
        exists w. split; [done|]. apply Hb. exists me. split; [done|].
        by rewrite Hg. }
      exists s0. split; [done|]. intros b.
      eapply for_each_lookup; [|done]. intros. by eapply visit_member_step. }
  unfold RadioButton_toggle. rewrite Hme. unfold mbind at 1. unfold option_bind at 1.
  rewrite Hrb, H0. simpl.
  assert (s0 !! this = Some me) as Hme0.
  { rewrite Hloop, Hme. simpl. f_equal.
    unfold loop_at, Radio.swapped_peer. rewrite Hme.
    unfold peer_swapped, peer_selected.
    rewrite bool_decide_eq_true_2 by done.
    by rewrite andb_false_r. }
  rewrite Hme0. simpl. eexists. split; [done|].
  intros b. unfold before_base_at. case_bool_decide as Hb; subst.
  - by rewrite lookup_insert_eq, Hme.
  - by rewrite lookup_insert_ne, Hloop.
Qed.

Lemma loop_at_keeps this s l b : keeps_icon_pair (loop_at Flags_RadioButton this s l b).
Proof.
  intros w. unfold loop_at. rewrite iter_swap_icons.
  destruct (Nat.even _); unfold same_icon_pair; simpl; auto.
Qed.

Lemma loop_at_pushed this s l b w :
  mPushed (loop_at Flags_RadioButton this s l b w) = mPushed w.
Proof. unfold loop_at. rewrite iter_swap_icons. by destruct (Nat.even _). Qed.

(** C3 (amended): [toggle()] enumerates the peers, the explicit group list
    when it is not empty and the children of the parent otherwise; for every
    other pushed button with the radio flag that is a [RadioButton] it
    exchanges [mIcon] and [mOtherIcon], once each time it comes across it;
    it then exchanges the two icons of the button itself, and hands the
    store so obtained to the base [Button::toggle()]. An exchange turns the
    unchecked presentation into the checked one and the checked one back
    into the unchecked one, for the button itself as for a peer; what is not
    a selected peer keeps its state up to the base call. *)
Theorem toggle_swaps_icons_then_delegates this s me l :
  s !! this = Some me → is_RadioButton me = true →
  peers this s = Some l → peers_valid this s l →
  (mButtonGroup me ≠ [] → l = mButtonGroup me) ∧
  (mButtonGroup me = [] →
     ∃ p pw, mParent me = Some p ∧ s !! p = Some pw ∧ l = mChildren pw) ∧
  ∃ s1,
    toggle this s = base_toggle this s1 ∧
    (∀ b, s1 !! b = before_base_at Flags_RadioButton this s l b <$> s !! b) ∧
    (∀ c u, unchecked_presentation c u me →
       ∃ me1, s1 !! this = Some me1 ∧ checked_presentation c u me1) ∧
    (∀ c u, checked_presentation c u me →
       ∃ me1, s1 !! this = Some me1 ∧ unchecked_presentation c u me1) ∧
    (∀ b w c u, swapped_peer this s b = true → visits b l = 1%nat →
       s !! b = Some w → checked_presentation c u w →
       ∃ w1, s1 !! b = Some w1 ∧ unchecked_presentation c u w1) ∧
    (∀ b, b ≠ this → swapped_peer this s b = false → s1 !! b = s !! b) ∧
    (∀ b, b ≠ this → b ∉ l → s1 !! b = s !! b).
Proof.
  intros Hme Hrb Hl Hvalid. split; [|split].
  - revert Hl. unfold peers. rewrite Hme. simpl.
    destruct (mButtonGroup me); [done|]. by intros [= <-] _.
  - intros Hg. revert Hl. unfold peers. rewrite Hme. simpl. rewrite Hg.
    destruct (mParent me) as [p|]; simpl; [|done].
    destruct (s !! p) as [pw|] eqn:Hp; simpl; [|done].
    intros [= <-]. by exists p, pw.
  - destruct (toggle_defined this s me l) as (s1 & Heq & Hs1); try done.
    exists s1. split; [done|]. split; [done|].
    assert (s1 !! this = Some (swap_icons me)) as Hthis.
    { rewrite Hs1, Hme. unfold before_base_at.
      by rewrite bool_decide_eq_true_2. }
    repeat split.
    + intros c u Hu. exists (swap_icons me). split; [done|].
      unfold checked_presentation, unchecked_presentation, icons in *.
      simpl. by injection Hu as -> ->.
    + intros c u Hc. exists (swap_icons me). split; [done|].
      unfold checked_presentation, unchecked_presentation, icons in *.
      simpl. by injection Hc as -> ->.
    + intros b w c u Hsw Hone Hb Hc.
      assert (b ≠ this) as Hne.
      { intros ->. revert Hsw. unfold Radio.swapped_peer. rewrite Hme.
        unfold peer_swapped, peer_selected.
        rewrite bool_decide_eq_true_2 by done. by rewrite andb_false_r. }
      exists (swap_icons w). split.
      * rewrite Hs1, Hb. unfold before_base_at, loop_at.
        rewrite bool_decide_eq_false_2 by done. by rewrite Hsw, Hone.
      * unfold checked_presentation, unchecked_presentation, icons in *.
        simpl. by injection Hc as -> ->.
    + intros b Hne Hsw. rewrite Hs1. unfold before_base_at, loop_at.
      rewrite bool_decide_eq_false_2 by done. rewrite Hsw. simpl.
      apply option_fmap_id.
    + intros b Hne Hnotin. rewrite Hs1. unfold before_base_at, loop_at.
      rewrite bool_decide_eq_false_2 by done.
      rewrite visits_not_elem_of by done.
      destruct (swapped_peer this s b); apply option_fmap_id.
Qed.

End toggle_facts.

Lemma RadioButton_ctor_lookup FN FR FT this parent c u s s0 :
  RadioButton_ctor FN FR FT this parent c u s = Some s0 →
  ∃ w, s0 !! this = Some w ∧ is_RadioButton w = true ∧
       mPushed w = false ∧ unchecked_presentation c u w.
Proof.
  unfold RadioButton_ctor, Button_ctor.
  destruct (s !! this); simpl; [done|].
  destruct parent as [p|]; simpl.
  - destruct (s !! p); simpl; [|done]. intros [= <-].
    rewrite lookup_alter_eq, lookup_insert_eq. simpl. by eexists.
  - intros [= <-].
    rewrite lookup_alter_eq, lookup_insert_eq. simpl. by eexists.
Qed.

Lemma Button_toggle_icons_kept a s s' :
  Button_toggle a s = Some s' → icons_kept s s'.
Proof.
  unfold Button_toggle. destruct (s !! a) as [me|] eqn:Hme; simpl; [|done].
  intros [= <-] b w Hb. destruct (decide (b = a)) as [->|Hne].
  - rewrite lookup_insert_eq. eexists. split; [done|].
    rewrite Hme in Hb. injection Hb as <-. by left.
  - rewrite lookup_insert_ne by done. exists w. split; [done|by left].
Qed.

Section any_base_toggle.

Set Default Proof Using "Type".

Variable Flags_RadioButton : Z.
Variable base_toggle : addr → store → option store.

(** The one thing asked of the base class: it leaves the icons alone. *)
Hypothesis base_toggle_icons :
  ∀ a s s', base_toggle a s = Some s' → icons_kept s s'.

Lemma icons_kept_trans s1 s2 s3 :
  icons_kept s1 s2 → icons_kept s2 s3 → icons_kept s1 s3.
Proof.
  intros H12 H23 b w Hb.
  destruct (H12 b w Hb) as (w2 & Hw2 & I2).
  destruct (H23 b w2 Hw2) as (w3 & Hw3 & I3).
  exists w3. split; [done|].
  unfold same_icon_pair, icons in *.
  destruct I2 as [I2|I2], I3 as [I3|I3]; rewrite I3;
    injection I2 as -> ->; auto.
Qed.

Lemma toggle_icons_kept this s s' :
  RadioButton_toggle Flags_RadioButton base_toggle this s = Some s' →
  icons_kept s s'.
Proof using base_toggle_icons.
  intros H.
  destruct (toggle_inv _ _ _ _ _ H) as (me & l & s1 & _ & _ & _ & Hbase & Hs1);
    [by eexists|].
  apply icons_kept_trans with s1; [|by eapply base_toggle_icons].
  intros b w Hb. rewrite Hs1, Hb. simpl. eexists. split; [done|].
  unfold before_base_at. case_bool_decide.
  - by right.
  - apply loop_at_keeps.
Qed.

Lemma toggles_icons_kept ts s s' :
  toggles Flags_RadioButton base_toggle ts s = Some s' → icons_kept s s'.
Proof using base_toggle_icons.
  revert s. induction ts as [|a ts IH]; intros s; simpl.
  - intros [= <-] b w Hb. exists w. split; [done|by left].
  - destruct (RadioButton_toggle _ _ a s) as [s1|] eqn:H1; simpl; [|done].
    intros H. eapply icons_kept_trans; [by eapply toggle_icons_kept|by apply IH].
Qed.

(** C10: a [RadioButton] is constructed showing its unchecked icon and
    holding the checked one; any sequence of [toggle()] calls, on whichever
    buttons, leaves every object with the same two icons, in one order or
    the other. [toggle] itself only ever exchanges the two; of the base
    [Button::toggle()] it ends with, this takes that it leaves the icons
    alone. *)
Theorem toggles_keep_icon_pair FN FT :
  (∀ this parent c u s s0,
     RadioButton_ctor FN Flags_RadioButton FT this parent c u s = Some s0 →
     ∃ w, s0 !! this = Some w ∧ unchecked_presentation c u w) ∧
  (∀ ts s s' b w c u,
     toggles Flags_RadioButton base_toggle ts s = Some s' → s !! b = Some w →
     checked_presentation c u w ∨ unchecked_presentation c u w →
     ∃ w', s' !! b = Some w' ∧
           (checked_presentation c u w' ∨ unchecked_presentation c u w')).
Proof using base_toggle_icons.
  split.
  - intros this parent c u s s0 H.
    destruct (RadioButton_ctor_lookup _ _ _ _ _ _ _ _ _ H) as (w & ? & _ & _ & ?).
    by exists w.
  - intros ts s s' b w c u Hts Hb Hpair.
    destruct (toggles_icons_kept ts s s' Hts b w Hb) as (w' & Hw' & Hsame).
    exists w'. split; [done|].
    unfold checked_presentation, unchecked_presentation, same_icon_pair, icons in *.
    destruct Hpair as [[= <- <-]|[= <- <-]], Hsame as [->| ->]; auto.
Qed.

End any_base_toggle.

(** ** On the tree of three radio buttons *)

Lemma toggle_swaps_icons_then_delegates_witness :
  ∃ s1,
    RadioButton_toggle 2 Button_toggle 3%positive (tree_after [2%positive])
    = Button_toggle 3%positive s1 ∧
    icons <$> s1 !! 2%positive = Some (0, 7) ∧
    icons <$> s1 !! 3%positive = Some (7, 0) ∧
    s1 !! 4%positive = tree_after [2%positive] !! 4%positive.
Proof.
  destruct (toggle_swaps_icons_then_delegates 2 Button_toggle 3%positive
              (tree_after [2%positive])
              {| dyn := RadioButton_class; mParent := Some 1%positive;
                 mChildren := []; mFlags := 6; mPushed := false; mIcon := 0;
                 mButtonGroup := []; mOtherIcon := 7 |}
              [2%positive; 3%positive; 4%positive])
    as (_ & _ & s1 & Heq & Hs1 & Hown & _ & Hpeer & Hrest & _).
  - vm_compute. reflexivity.
  - reflexivity.
  - vm_compute. reflexivity.
  - intros a Ha.
    repeat (apply elem_of_cons in Ha as [->|Ha]);
      try (by apply elem_of_nil in Ha);
      (eexists; split; [vm_compute; reflexivity|done]).
  - exists s1. split; [exact Heq|]. split; [|split].
    + assert (∃ w1, s1 !! 2%positive = Some w1 ∧ unchecked_presentation 7 0 w1)
        as (w1 & -> & Hw1).
      { apply (Hpeer 2%positive
                 {| dyn := RadioButton_class; mParent := Some 1%positive;
                    mChildren := []; mFlags := 6; mPushed := true; mIcon := 7;
                    mButtonGroup := []; mOtherIcon := 0 |} 7 0);
          vm_compute; reflexivity. }
      simpl. by f_equal.
    + assert (∃ me1, s1 !! 3%positive = Some me1 ∧ checked_presentation 7 0 me1)
        as (me1 & -> & Hme1) by (by apply Hown).
      simpl. by f_equal.
    + apply Hrest; [done|]. vm_compute. reflexivity.
Defined.

(** C3, as stated, fails for the button itself: toggled while it shows its
    checked icon (7, of the pair it was constructed with), the first button
    of the tree shows the unchecked one afterwards. *)
Lemma toggle_of_pushed_button_shows_unchecked :
  three_buttons ≫= toggles 2 Button_toggle [2%positive] = Some (tree_after [2%positive]) ∧
  ¬ own_icon_checked_after_toggle 2 7 0 2%positive (tree_after [2%positive]).
Proof.
  split; [vm_compute; reflexivity|].
  intros H.
  destruct (H (tree_after [2%positive; 2%positive])) as (w & Hw & Hc);
    [vm_compute; reflexivity|].
  revert Hw. vm_compute. intros [= <-]. discriminate Hc.
Qed.

Lemma toggles_keep_icon_pair_witness :
  ∃ w', tree_after [2%positive; 3%positive; 2%positive] !! 2%positive = Some w' ∧
        (checked_presentation 7 0 w' ∨ unchecked_presentation 7 0 w').
Proof.
  destruct (toggles_keep_icon_pair 2 Button_toggle Button_toggle_icons_kept 1 4)
    as (Hctor & Hkeep).
  apply (Hkeep [2%positive; 3%positive; 2%positive] (tree_after [])
               (tree_after [2%positive; 3%positive; 2%positive]) 2%positive
               {| dyn := RadioButton_class; mParent := Some 1%positive;
                  mChildren := []; mFlags := 6; mPushed := false;
                  mIcon := 0; mButtonGroup := []; mOtherIcon := 7 |} 7 0).
  - vm_compute. reflexivity.
  - vm_compute. reflexivity.
  - right. reflexivity.
Defined.

(** ** Further facts about [toggle] *)

Section more_toggle_facts.

Set Default Proof Using "Type".

Variable Flags_RadioButton : Z.
Variable base_toggle : addr → store → option store.

(** X1: a [RadioButton] that has neither an explicit group nor a parent it
    can reach ([parent()] is null, or dangles) cannot be toggled: the loop
    over [parent()->children()] has nothing defined to run over, whatever the
    base class would do. *)
Theorem toggle_needs_group_or_parent this s me :
  s !! this = Some me → mButtonGroup me = [] →
  (mParent me = None ∨ ∃ p, mParent me = Some p ∧ s !! p = None) →
  RadioButton_toggle Flags_RadioButton base_toggle this s = None.
Proof.
  intros Hme Hg Hp. unfold RadioButton_toggle. rewrite Hme. simpl.
  destruct (is_RadioButton me); [|done]. rewrite Hg.
  destruct Hp as [->|(p & -> & Hp)]; simpl; [done|]. by rewrite Hp.
Qed.

(** X2: up to the call of the base class, [toggle] writes icons and nothing
    else: the store it hands to [Button::toggle()] has the same objects as
    the one it started from, each with its class, parent, children, flags,
    group and pushed state, and with its two icons in one order or the
    other. *)
Theorem toggle_hands_over_icons_only this s r :
  RadioButton_toggle Flags_RadioButton base_toggle this s = r → is_Some r →
  ∃ s1, base_toggle this s1 = r ∧
    ∀ b, match s !! b, s1 !! b with
         | Some w, Some w1 =>
             skeleton w1 = skeleton w ∧ mPushed w1 = mPushed w ∧
             same_icon_pair w w1
         | None, None => True
         | _, _ => False
         end.
Proof.
  intros Hrun Hr.
  destruct (toggle_inv _ _ _ _ _ Hrun Hr) as (me & l & s1 & _ & _ & _ & Hbase & Hs1).
  exists s1. split; [done|]. intros b. rewrite Hs1.
  destruct (s !! b) as [w|]; simpl; [|done].
  unfold before_base_at. case_bool_decide.
  - repeat split. by right.
  - destruct (loop_at_keeps Flags_RadioButton this s l b w) as [? ?].
    by rewrite loop_at_pushed.
Qed.

(** X3: a peer that the loop comes across an even number of times, such as
    a button listed twice in the explicit group, is handed to the base class
    with its icons as they were; one it comes across an odd number of times
    and selects has them exchanged. *)
Theorem toggle_peer_parity this s r :
  RadioButton_toggle Flags_RadioButton base_toggle this s = r → is_Some r →
  ∃ l s1, peers this s = Some l ∧ base_toggle this s1 = r ∧
    ∀ b, b ≠ this →
      (Nat.even (visits b l) = true → s1 !! b = s !! b) ∧
      (Nat.even (visits b l) = false →
       swapped_peer Flags_RadioButton this s b = true →
       s1 !! b = swap_icons <$> s !! b).
Proof.
  intros Hrun Hr.
  destruct (toggle_inv _ _ _ _ _ Hrun Hr) as (me & l & s1 & _ & _ & Hl & Hbase & Hs1).
  exists l, s1. repeat split; try done.
  - intros Heven. rewrite Hs1. unfold before_base_at, loop_at.
    rewrite bool_decide_eq_false_2 by done.
    destruct (swapped_peer _ this s b); [|apply option_fmap_id].
    destruct (s !! b) as [w|]; simpl; [|done].
    by rewrite iter_swap_icons, Heven.
  - intros Hodd Hsw. rewrite Hs1. unfold before_base_at, loop_at.
    rewrite bool_decide_eq_false_2 by done. rewrite Hsw.
    destruct (s !! b) as [w|]; simpl; [|done].
    by rewrite iter_swap_icons, Hodd.
Qed.

End more_toggle_facts.

(** X4: the constructor leaves a [RadioButton] with both the
    [RadioButton] and the [ToggleButton] bit set in its flags, whatever the
    two masks are, not pushed, showing the unchecked icon; so the test
    [flags() & Flags::RadioButton] of a peer's [toggle] finds it whenever
    the mask is not zero. *)
Theorem RadioButton_ctor_flags FN FR FT this parent c u s s0 :
  RadioButton_ctor FN FR FT this parent c u s = Some s0 →
  ∃ w, s0 !! this = Some w ∧ is_RadioButton w = true ∧
       Z.land (mFlags w) FR = FR ∧ Z.land (mFlags w) FT = FT ∧
       (FR ≠ 0 → has_radio_flag FR w = true) ∧
       mPushed w = false ∧ icons w = (u, c).
Proof.
  assert (∀ a b, Z.land (Z.lor a b) a = a) as Habsorb.
  { intros a b. apply Z.bits_inj'. intros n Hn.
    rewrite Z.land_spec, Z.lor_spec. by destruct (Z.testbit a n), (Z.testbit b n). }
  unfold RadioButton_ctor, Button_ctor.
  destruct (s !! this); simpl; [done|].
  assert (∀ s1 : store,
            s1 !! this
            = Some {| dyn := Button_class; mParent := parent; mChildren := [];
                      mFlags := FN; mPushed := false; mIcon := u;
                      mButtonGroup := []; mOtherIcon := 0 |} →
            ∃ w, alter (as_RadioButton FR FT c) this s1 !! this = Some w ∧
                 is_RadioButton w = true ∧
                 Z.land (mFlags w) FR = FR ∧ Z.land (mFlags w) FT = FT ∧
                 (FR ≠ 0 → has_radio_flag FR w = true) ∧
                 mPushed w = false ∧ icons w = (u, c)) as Hobj.
  { intros s1 Hs1. rewrite lookup_alter_eq, Hs1. simpl. eexists. split; [done|].
    simpl. repeat split; [apply Habsorb|by rewrite Z.lor_comm, Habsorb|].
    intros Hne. unfold has_radio_flag. simpl. rewrite Habsorb.
    by apply negb_true_iff, Z.eqb_neq. }
  destruct parent as [p|]; simpl.
  - destruct (s !! p); simpl; [|done]. intros [= <-].
    apply Hobj, lookup_insert_eq.
  - intros [= <-]. apply Hobj, lookup_insert_eq.
Qed.

Lemma toggle_needs_group_or_parent_witness :
  RadioButton_toggle 2 Button_toggle 5%positive lone_button = None.
Proof.
  apply (toggle_needs_group_or_parent 2 Button_toggle 5%positive lone_button
           {| dyn := RadioButton_class; mParent := None; mChildren := [];
              mFlags := 6; mPushed := false; mIcon := 0;
              mButtonGroup := []; mOtherIcon := 7 |}).
  - vm_compute. reflexivity.
  - reflexivity.
  - by left.
Defined.

Lemma toggle_hands_over_icons_only_witness :
  ∃ s1, Button_toggle 3%positive s1
        = RadioButton_toggle 2 Button_toggle 3%positive (tree_after [2%positive]) ∧
        is_Some (s1 !! 2%positive).
Proof.
  destruct (toggle_hands_over_icons_only 2 Button_toggle 3%positive
              (tree_after [2%positive]) _ eq_refl)
    as (s1 & Hbase & Hs1); [vm_compute; by eexists|].
  exists s1. split; [done|].
  specialize (Hs1 2%positive). revert Hs1.
  replace (tree_after [2%positive] !! 2%positive)
    with (Some {| dyn := RadioButton_class; mParent := Some 1%positive;
                  mChildren := []; mFlags := 6; mPushed := true; mIcon := 7;
                  mButtonGroup := []; mOtherIcon := 0 |})
    by (vm_compute; reflexivity).
  lazymatch goal with
  | |- match ?x with _ => _ end → _ =>
      change (s1 !! 2%positive) with x; destruct x; [by eexists|intros []]
  end.
Defined.

Lemma toggle_peer_parity_witness :
  ∃ s1, Button_toggle 2%positive s1
        = RadioButton_toggle 2 Button_toggle 2%positive doubled_group ∧
        s1 !! 3%positive = doubled_group !! 3%positive.
Proof.
  destruct (toggle_peer_parity 2 Button_toggle 2%positive doubled_group _ eq_refl)
    as (l & s1 & Hl & Hbase & Hs1); [vm_compute; by eexists|].
  exists s1. split; [done|].
  destruct (Hs1 3%positive) as [Heven _]; [done|]. apply Heven.
  assert (l = [3%positive; 3%positive]) as ->; [|reflexivity].
  revert Hl. vm_compute. by intros [= <-].
Defined.

Lemma RadioButton_ctor_flags_witness :
  ∃ w, lone_button !! 5%positive = Some w ∧ has_radio_flag 2 w = true.
Proof.
  destruct (RadioButton_ctor_flags 1 2 4 5%positive None 7 0 ∅ lone_button)
    as (w & Hw & _ & _ & _ & Hflag & _); [vm_compute; reflexivity|].
  exists w. split; [done|]. by apply Hflag.
Defined.

End RadioFacts.

(** * Facts about Screen *)
Module ScreenFacts.
Import Screen.

Section screen_facts.

Set Default Proof Using "Type".

Variable B : Build.
Variable ScreenCore_ctor : ScreenCore B.
Variable ScreenCore_init : Vector2i → float B → ScreenCore B → exn + ScreenCore B.
Variable resizeEvent : addr → Vector2i → M B bool.

Implicit Types (W : World B) (s : Screen B) (this : addr) (w : GLFWwindow).

(** C2 (amended): [setVisible] and [setCaption] store the new value and
    forward it to the host ([glfwShowWindow] or [glfwHideWindow],
    [glfwSetWindowTitle]); when the argument equals the stored value they do
    nothing at all. [setSize] stores the size and asks the host for it
    ([glfwSetWindowSize], scaled by the pixel ratio on Windows and Linux)
    every time, also when the size is the stored one. *)
Theorem setters_forward_to_host this W s :
  heap W !! this = Some s →
  (∀ visible, mVisible (base s) = visible →
     setVisible B this visible W = Return tt W) ∧
  (∀ visible, mVisible (base s) ≠ visible →
     setVisible B this visible W
     = Return tt
         (set_host B
            (add_log B (if visible then glfwShowWindow (mGLFWWindow s)
                        else glfwHideWindow (mGLFWWindow s)))
            (set_heap B <[this := set_mVisible B visible s]> W))) ∧
  (∀ caption, mCaption s = caption →
     setCaption B this caption W = Return tt W) ∧
  (∀ caption, mCaption s ≠ caption →
     setCaption B this caption W
     = Return tt
         (set_host B (add_log B (glfwSetWindowTitle (mGLFWWindow s) caption))
            (set_heap B <[this := set_mCaption B caption s]> W))) ∧
  (∀ size,
     setSize B this size W
     = Return tt
         (set_host B
            (add_log B
               (if scaled_platform B
                then glfwSetWindowSize (mGLFWWindow s)
                       (scale B size.1 (mPixelRatio (base s)))
                       (scale B size.2 (mPixelRatio (base s)))
                else glfwSetWindowSize (mGLFWWindow s) size.1 size.2))
            (set_heap B <[this := set_mSize B size s]> W))).
Proof.
  intros Hs. repeat split.
  - intros v <-. unfold setVisible. unfold_M. cbn. rewrite Hs. cbn.
    by destruct (mVisible (base s)).
  - intros v Hv. unfold setVisible. unfold_M. cbn. rewrite Hs. cbn.
    destruct (mVisible (base s)), v; done.
  - intros c <-. unfold setCaption. unfold_M. cbn. rewrite Hs. cbn.
    by rewrite bool_decide_eq_true_2.
  - intros c Hc. unfold setCaption. unfold_M. cbn. rewrite Hs. cbn.
    by rewrite bool_decide_eq_false_2.
  - intros size. unfold setSize, Widget_setSize. unfold_M. cbn.
    rewrite Hs. cbn. rewrite lookup_insert_eq. cbn.
    by destruct (scaled_platform B).
Qed.

(** C6 (amended): [drawAll] performs, in this order: [glClearColor] and
    [glClear]; [glfwMakeContextCurrent]; [glfwGetFramebufferSize] and
    [glfwGetWindowSize], into [mFBSize] and [mSize]; [glViewport] with the
    framebuffer size; [drawContents()]; [drawWidgets()], when the screen is
    visible only; [glfwSwapBuffers]. Where the platform has no query for the
    pixel ratio, the ratio is derived anew as the quotient of the widths,
    unless the window has no width; on Windows and Linux the ratio is kept,
    the window size is divided by it and the framebuffer size computed back
    from the result. *)
Theorem drawAll_calls_in_order this W s w i :
  heap W !! this = Some s → mGLFWWindow s = Some w →
  windows (host W) !! w = Some i →
  ∃ s' W',
    drawAll B this W = Return tt W' ∧
    heap W' = <[this := s']> (heap W) ∧
    nanogui_screens W' = nanogui_screens W ∧
    windows (host W') = windows (host W) ∧
    log (host W')
    = log (host W)
      ++ [glClearColor (mBackground s); glClear;
          glfwMakeContextCurrent (Some w);
          glfwGetFramebufferSize (Some w); glfwGetWindowSize (Some w);
          glViewport 0 0 (mFBSize (base s')).1 (mFBSize (base s')).2;
          drawContents this]
      ++ (if mVisible (base s) then [drawWidgets this] else [])
      ++ [glfwSwapBuffers (Some w)] ∧
    (scaled_platform B = false →
       mFBSize (base s') = fb_size i ∧ mSize (base s') = win_size i ∧
       mPixelRatio (base s')
       = if (win_size i).1 =? 0 then mPixelRatio (base s)
         else float_quot B (fb_size i).1 (win_size i).1) ∧
    (scaled_platform B = true →
       mSize (base s') = vec_div B (win_size i) (mPixelRatio (base s)) ∧
       mFBSize (base s') = vec_mul B (mSize (base s')) (mPixelRatio (base s)) ∧
       mPixelRatio (base s') = mPixelRatio (base s)).
Proof.
  intros Hs Hw Hi.
  unfold drawAll, getFramebufferSize, getWindowSize, window_info.
  destruct (scaled_platform B) eqn:Hsc; run_with Hs Hw Hi.
  - destruct (mVisible (base s)) eqn:Hv; cbn;
      (eexists _, _; split; [reflexivity|]); cbn;
      rewrite !insert_insert_eq, <- !app_assoc; cbn; rewrite ?Hv;
      (split; [reflexivity|]); repeat split; done.
  - destruct ((win_size i).1 =? 0) eqn:Hz; cbn;
      destruct (mVisible (base s)) eqn:Hv; cbn;
      (eexists _, _; split; [reflexivity|]); cbn;
      rewrite !insert_insert_eq, <- !app_assoc; cbn; rewrite ?Hv, ?Hz, ?Hw;
      (split; [reflexivity|]); cbn; rewrite ?Hz; repeat split; done.
Qed.

(** [resizeCallbackEvent] on an object with a window that exists: the guard,
    then the handler under the [try]. *)
Lemma resizeCallbackEvent_run this W s w i :
  heap W !! this = Some s → mGLFWWindow s = Some w →
  windows (host W) !! w = Some i →
  resizeCallbackEvent B resizeEvent this W
  = if resize_rejected B s i then Return false (resize_queried B s W)
    else
      match resizeEvent this (event_size B s i) (resize_accepted B this s i W) with
      | Throw (std_exception what) W' =>
          Abort (set_host B
                   (add_log B (cerr ("Caught exception in event handler: " +:+ what)))
                   W')
      | r => r
      end.
Proof.
  intros Hs Hw Hi.
  unfold resizeCallbackEvent, try_catch_std, getFramebufferSize, getWindowSize,
    window_info, resize_rejected, resize_accepted, resize_queried, event_size.
  run_with Hs Hw Hi.
  destruct (bool_decide (mFBSize (base s) = (0, 0))
            || bool_decide ((if scaled_platform B
                             then vec_div B (win_size i) (mPixelRatio (base s))
                             else win_size i) = (0, 0))) eqn:Hg.
  - done.
  - run_with Hs Hw Hi.
    unfold set_heap, set_host. cbn. rewrite insert_insert_eq.
    destruct (resizeEvent _ _ _) as [b W'|[what|] W'|W'|]; done.
Qed.

(** C5 (amended): when the resize handler throws an exception of a class
    derived from [std::exception], [resizeCallbackEvent] catches it, reports
    it on the error stream and aborts the process; anything else the handler
    throws passes through to the caller. *)
Theorem resize_handler_exception this W s w i :
  heap W !! this = Some s → mGLFWWindow s = Some w →
  windows (host W) !! w = Some i →
  resize_rejected B s i = false →
  (∀ what W',
     resizeEvent this (event_size B s i) (resize_accepted B this s i W)
     = Throw (std_exception what) W' →
     resizeCallbackEvent B resizeEvent this W
     = Abort (set_host B
                (add_log B (cerr ("Caught exception in event handler: " +:+ what)))
                W')) ∧
  (∀ W',
     resizeEvent this (event_size B s i) (resize_accepted B this s i W)
     = Throw other_exception W' →
     resizeCallbackEvent B resizeEvent this W = Throw other_exception W').
Proof.
  intros Hs Hw Hi Hg.
  rewrite (resizeCallbackEvent_run this W s w i Hs Hw Hi), Hg.
  split; [intros what W' ->|intros W' ->]; done.
Qed.

(** ** The rules for [ensures] *)

Lemma ensures_bind {A C} (m : M B A) (f : A → M B C) P R Q :
  ensures B m P R → (∀ a, ensures B (f a) (R a) Q) → ensures B (m ≫= f) P Q.
Proof.
  intros Hm Hf W c W' HP. unfold mbind, M_bind.
  destruct (m W) as [a W1| | |] eqn:Hrun; try done.
  intros Hc. eapply Hf; [|done]. by eapply Hm.
Qed.

Lemma ensures_ret {A} (a : A) (P : World B → Prop) Q :
  (∀ W, P W → Q a W) → ensures B (mret a) P Q.
Proof. intros H W a' W' HP [= <- <-]. by apply H. Qed.

Lemma ensures_weaken {A} (m : M B A) (P P' : World B → Prop) (Q Q' : A → World B → Prop) :
  ensures B m P Q → (∀ W, P' W → P W) → (∀ a W, Q a W → Q' a W) →
  ensures B m P' Q'.
Proof. intros H HP HQ W a W' HP' Hrun. eapply HQ, H; [by apply HP|done]. Qed.

Lemma ensures_throw {A} e P (Q : A → World B → Prop) : ensures B (throw B e) P Q.
Proof. by intros W a W' _. Qed.

Lemma ensures_undefined {A} P (Q : A → World B → Prop) : ensures B (undefined B) P Q.
Proof. by intros W a W' _. Qed.

Lemma ensures_modify f (P Q : World B → Prop) :
  (∀ W, P W → Q (f W)) → ensures B (modify B f) P (λ _, Q).
Proof. intros H W a W' HP [= <- <-]. by apply H. Qed.

Lemma keeps_bind {A C} (m : M B A) (f : A → M B C) I :
  keeps B m I → (∀ a, keeps B (f a) I) → keeps B (m ≫= f) I.
Proof. intros Hm Hf. by eapply ensures_bind. Qed.

Lemma keeps_ret {A} (a : A) I : keeps B (mret a) I.
Proof. by apply ensures_ret. Qed.

Lemma keeps_if {A} (b : bool) (m1 m2 : M B A) I :
  keeps B m1 I → keeps B m2 I → keeps B (if b then m1 else m2) I.
Proof. by destruct b. Qed.

(** ** What the primitives keep *)

Lemma keeps_call c I : stable B I → keeps B (call B c) I.
Proof. intros [Hh _]. apply ensures_modify. intros W. apply Hh. constructor. Qed.

Lemma keeps_read this I : keeps B (read B this) I.
Proof.
  intros W s W' HI. unfold read. unfold_M.
  destruct (heap W !! this); [|done]. by intros [= <- <-].
Qed.

Lemma ensures_read this I :
  ensures B (read B this) I (λ s W, I W ∧ heap W !! this = Some s).
Proof.
  intros W s W' HI. unfold read. unfold_M.
  destruct (heap W !! this) eqn:Hs; [|done]. by intros [= <- <-].
Qed.

Lemma keeps_window_info (ow : option GLFWwindow) I :
  keeps B (window_info B ow) I.
Proof.
  intros W i W' HI. unfold window_info. unfold_M.
  destruct ow as [w0|]; cbn; [|done].
  destruct (windows (host W) !! w0); [|done]. by intros [= <- <-].
Qed.

(** A query: the call is logged, the answer read off the window. *)
Ltac keeps_query :=
  apply keeps_bind; [by apply keeps_call|intros _];
  apply keeps_bind; [apply keeps_window_info|intros ?]; apply keeps_ret.

Lemma keeps_getFramebufferSize (ow : option GLFWwindow) I :
  stable B I → keeps B (getFramebufferSize B ow) I.
Proof. intros HI. unfold getFramebufferSize. keeps_query. Qed.

Lemma keeps_getWindowSize (ow : option GLFWwindow) I :
  stable B I → keeps B (getWindowSize B ow) I.
Proof. intros HI. unfold getWindowSize. keeps_query. Qed.

Lemma keeps_getWindowAttrib_VISIBLE (ow : option GLFWwindow) I :
  stable B I → keeps B (getWindowAttrib_VISIBLE B ow) I.
Proof. intros HI. unfold getWindowAttrib_VISIBLE. keeps_query. Qed.

Lemma keeps_get I : keeps B (get B) I.
Proof. by intros W a W' HI [= <- <-]. Qed.

Lemma keeps_getPrimaryVideoMode I : stable B I → keeps B (getPrimaryVideoMode B) I.
Proof.
  intros HI. unfold getPrimaryVideoMode.
  apply keeps_bind; [by apply keeps_call|intros _].
  apply keeps_bind; [by apply keeps_call|intros _].
  apply keeps_bind; [apply keeps_get|intros W0].
  destruct (primary_monitor B (host W0)); [apply keeps_ret|apply ensures_undefined].
Qed.

Lemma keeps_get_pixel_ratio (ow : option GLFWwindow) I :
  stable B I → keeps B (get_pixel_ratio B ow) I.
Proof.
  intros HI. unfold get_pixel_ratio. apply keeps_if.
  - apply keeps_bind; [apply keeps_get|intros W0]. apply keeps_ret.
  - apply keeps_bind; [by apply keeps_getFramebufferSize|intros fb].
    apply keeps_bind; [by apply keeps_getWindowSize|intros sz]. apply keeps_ret.
Qed.

Lemma keeps_loadGLLoader I : stable B I → keeps B (loadGLLoader B) I.
Proof.
  intros HI. unfold loadGLLoader.
  apply keeps_bind; [by apply keeps_call|intros _].
  apply keeps_bind; [apply keeps_get|intros W0]. apply keeps_ret.
Qed.

Lemma keeps_glad_init I : stable B I → keeps B (glad_init B) I.
Proof.
  intros HI. unfold glad_init. apply keeps_if; [|apply keeps_ret].
  apply keeps_bind; [apply keeps_get|intros W0].
  apply keeps_if; [apply keeps_ret|].
  apply keeps_bind; [|intros _].
  { apply ensures_modify. intros W. apply HI. }
  apply keeps_bind; [by apply keeps_loadGLLoader|intros ok].
  destruct ok; [by apply keeps_call|apply ensures_throw].
Qed.

Lemma keeps_update this f I : obj_stable B this f I → keeps B (update B this f) I.
Proof.
  intros Hf. unfold update.
  eapply ensures_bind; [apply ensures_read|intros s].
  apply ensures_modify. intros W [HI Hs]. by apply Hf.
Qed.

Lemma keeps_calls cs I : stable B I → keeps B (calls B cs) I.
Proof.
  intros HI. induction cs as [|c cs IH]; simpl; [apply keeps_ret|].
  apply keeps_bind; [by apply keeps_call|by intros _].
Qed.

Lemma keeps_setCallback k w I : stable B I → keeps B (setCallback B k w) I.
Proof.
  intros HI. unfold setCallback.
  apply keeps_bind; [by apply keeps_call|intros _].
  apply ensures_modify. intros W. apply HI. constructor.
Qed.

Lemma keeps_createStandardCursor i I :
  stable B I → keeps B (createStandardCursor B i) I.
Proof.
  intros HI. unfold createStandardCursor.
  apply keeps_bind; [by apply keeps_call|intros _].
  apply keeps_bind; [apply keeps_get|intros W0].
  destruct (std_cursors B (host W0) !! i) as [[c|]|]; try apply keeps_ret.
  apply keeps_bind; [|intros _; apply keeps_ret].
  apply ensures_modify. intros W. apply HI. constructor.
Qed.

Lemma keeps_create_cursors this l I :
  stable B I → (∀ cs, obj_stable B this (λ s, set_mCursors B (cs s) s) I) →
  keeps B (create_cursors B this l) I.
Proof.
  intros HI Hobj. induction l as [|i l IH]; simpl; [apply keeps_ret|].
  apply keeps_bind; [by apply keeps_createStandardCursor|intros c].
  apply keeps_bind; [|by intros _].
  apply keeps_update. apply (Hobj (λ s, <[i:=c]> (mCursors s))).
Qed.

Lemma keeps_init this size r I :
  (∀ c, obj_stable B this (set_base B (λ _, c)) I) →
  keeps B (init B ScreenCore_init this size r) I.
Proof.
  intros Hobj. unfold init.
  eapply ensures_bind; [apply ensures_read|intros s].
  destruct (ScreenCore_init size r (base s)) as [e|c]; [apply ensures_throw|].
  apply ensures_modify. intros W [HI Hs]. by apply (Hobj c).
Qed.

(** ** The invariant of the constructor *)

Lemma ctor_inv_stable w this P ks reg : stable B (ctor_inv B w this P ks reg).
Proof.
  split.
  - intros W f Hf (Hlive & Hobj & Hcb & Hreg). repeat split; try done.
    + unfold live in *. destruct Hf; cbn; try done.
      apply lookup_insert_is_Some'. by right.
    + intros k Hk. specialize (Hcb k Hk). destruct Hf; cbn; try done.
      by right.
  - by intros W b.
Qed.

Lemma ctor_inv_update w this (P P' : Screen B → Prop) ks reg f :
  (∀ s, P s → P' (f s)) →
  ensures B (update B this f) (ctor_inv B w this P ks reg)
    (λ _, ctor_inv B w this P' ks reg).
Proof.
  intros Hf. unfold update.
  eapply ensures_bind; [apply ensures_read|intros s].
  apply ensures_modify.
  intros W [(Hlive & (s' & Hs' & HP) & Hcb & Hreg) Hs].
  rewrite Hs in Hs'. injection Hs' as <-.
  repeat split; try done.
  exists (f s). split; [apply lookup_insert_eq|by apply Hf].
Qed.

Lemma ctor_inv_obj_stable w this (P : Screen B → Prop) ks reg f :
  (∀ s, P s → P (f s)) → obj_stable B this f (ctor_inv B w this P ks reg).
Proof.
  intros Hf W s Hs (Hlive & (s' & Hs' & HP) & Hcb & Hreg).
  rewrite Hs in Hs'. injection Hs' as <-.
  repeat split; try done.
  exists (f s). split; [apply lookup_insert_eq|by apply Hf].
Qed.

Lemma ctor_inv_setCallback w this P ks reg k :
  ensures B (setCallback B k w) (ctor_inv B w this P ks reg)
    (λ _, ctor_inv B w this P (k :: ks) reg).
Proof.
  unfold setCallback.
  eapply ensures_bind; [apply keeps_call, ctor_inv_stable|intros ?].
  apply ensures_modify. intros W (Hlive & Hobj & Hcb & Hreg).
  repeat split; try done.
  intros k' [->|Hk']%elem_of_cons; cbn; [by left|right; by apply Hcb].
Qed.

Lemma ctor_inv_set_callbacks w this P ks reg l :
  ensures B (set_callbacks B l w) (ctor_inv B w this P ks reg)
    (λ _, ctor_inv B w this P (rev l ++ ks) reg).
Proof.
  revert ks. induction l as [|k l IH]; intros ks; simpl.
  - by apply ensures_ret.
  - eapply ensures_bind; [apply ctor_inv_setCallback|intros ?].
    rewrite <- app_assoc. apply IH.
Qed.

(** [initialize] on a window that exists: the object holds the window and
    the flag it was given, and is registered for the window. *)
Lemma ctor_inv_initialize w this (P : Screen B → Prop) ks reg flag :
  ensures B (initialize B ScreenCore_init this (Some w) flag)
    (ctor_inv B w this P ks reg)
    (λ _, ctor_inv B w this
            (λ s, mGLFWWindow s = Some w ∧ mShutdownGLFWOnDestruct s = flag)
            ks true).
Proof.
  unfold initialize.
  eapply ensures_bind; [|intros ?].
  { apply (ctor_inv_update _ _ _ (λ s, mGLFWWindow s = Some w)). by intros s _. }
  eapply ensures_bind; [|intros ?].
  { apply (ctor_inv_update _ _ _
             (λ s, mGLFWWindow s = Some w ∧ mShutdownGLFWOnDestruct s = flag)).
    by intros s Hs. }
  apply ensures_weaken with
    (P := ctor_inv B w this
            (λ s, mGLFWWindow s = Some w ∧ mShutdownGLFWOnDestruct s = flag) ks reg)
    (Q := λ _, ctor_inv B w this
            (λ s, mGLFWWindow s = Some w ∧ mShutdownGLFWOnDestruct s = flag) ks true);
    try done.
  set (I := ctor_inv B w this
              (λ s, mGLFWWindow s = Some w ∧ mShutdownGLFWOnDestruct s = flag) ks reg).
  assert (stable B I) as HI by apply ctor_inv_stable.
  assert (∀ f, (∀ s, mGLFWWindow (f s) = mGLFWWindow s
                     ∧ mShutdownGLFWOnDestruct (f s) = mShutdownGLFWOnDestruct s) →
               obj_stable B this f I) as Hobj.
  { intros f Hf. apply ctor_inv_obj_stable. intros s [<- <-]. apply Hf. }
  eapply ensures_bind; [by apply keeps_getWindowSize|intros size].
  eapply ensures_bind; [by apply keeps_update, Hobj|intros ?].
  eapply ensures_bind; [by apply keeps_getFramebufferSize|intros fb].
  eapply ensures_bind; [by apply keeps_update, Hobj|intros ?].
  eapply ensures_bind; [by apply keeps_get_pixel_ratio|intros r].
  eapply ensures_bind; [by apply keeps_update, Hobj|intros ?].
  eapply ensures_bind; [|intros ?].
  { apply keeps_if; [|apply keeps_ret].
    apply keeps_bind; [apply keeps_read|intros s].
    apply keeps_if; [by apply keeps_call|apply keeps_ret]. }
  eapply ensures_bind; [by apply keeps_glad_init|intros ?].
  eapply ensures_bind; [apply keeps_read|intros s].
  eapply ensures_bind; [by apply keeps_get_pixel_ratio|intros r'].
  eapply ensures_bind; [apply keeps_init; intros c; by apply Hobj|intros ?].
  eapply ensures_bind; [by apply keeps_getWindowAttrib_VISIBLE|intros v].
  eapply ensures_bind; [by apply keeps_update, Hobj|intros ?].
  eapply ensures_bind; [|intros s'].
  { apply ensures_read. }
  eapply ensures_bind; [|intros ?].
  { apply ensures_modify with
      (Q := ctor_inv B w this
              (λ s, mGLFWWindow s = Some w ∧ mShutdownGLFWOnDestruct s = flag)
              ks true).
    intros W [(Hlive & (s0 & Hs0 & HPs) & Hcb & Hreg) Hs].
    rewrite Hs in Hs0. injection Hs0 as <-.
    repeat split; try done; [by exists s'|].
    intros _. unfold registered. cbn. destruct HPs as [-> _].
    apply lookup_insert_eq. }
  apply keeps_create_cursors; [apply ctor_inv_stable|].
  intros cs. apply ctor_inv_obj_stable. by intros s0 [? ?].
Qed.

Lemma obj_stable_host this P : stable B (obj B this P).
Proof. split; [by intros W f _|by intros W b]. Qed.

Lemma createWindow_ensures width height title m I :
  stable B I →
  ensures B (createWindow B width height title m) I
    (λ r W, I W ∧ match r with Some w => live B w W | None => True end).
Proof.
  intros [HI _] W r W' HIW. unfold createWindow. unfold_M. cbn.
  destruct (pending_windows B (host W)) as [|[[w i]|] rest]; cbn;
    intros [= <- <-]; try done.
  - split; [|done]. apply HI; [constructor|done].
  - split.
    + repeat (apply HI; [constructor|]). done.
    + unfold live. cbn. by rewrite lookup_insert_eq.
  - split; [|done]. repeat (apply HI; [constructor|]). done.
Qed.

Lemma Screen_ctor_with_window_ensures this a w :
  ensures B (Screen_ctor_with_window B ScreenCore_init this a w)
    (ctor_inv B w this (λ _, True) [] false)
    (λ _, ctor_inv B w this
            (λ s, mGLFWWindow s = Some w ∧ mShutdownGLFWOnDestruct s = true)
            (rev all_callbacks) true).
Proof.
  unfold Screen_ctor_with_window.
  set (I := ctor_inv B w this (λ _, True) [] false).
  assert (stable B I) as HI by apply ctor_inv_stable.
  assert (∀ f, obj_stable B this f I) as Hobj.
  { intros f. by apply ctor_inv_obj_stable. }
  eapply ensures_bind; [by apply keeps_call|intros ?].
  eapply ensures_bind; [by apply keeps_glad_init|intros ?].
  eapply ensures_bind; [by apply keeps_getFramebufferSize|intros fb].
  eapply ensures_bind; [by apply keeps_update|intros ?].
  eapply ensures_bind; [by apply keeps_update|intros ?].
  eapply ensures_bind; [by apply keeps_call|intros ?].
  eapply ensures_bind; [apply keeps_read|intros s].
  eapply ensures_bind; [by apply keeps_call|intros ?].
  eapply ensures_bind; [by apply keeps_call|intros ?].
  eapply ensures_bind; [by apply keeps_call|intros ?].
  eapply ensures_bind; [by apply keeps_call|intros ?].
  eapply ensures_bind; [|intros ?].
  { apply keeps_if; [by apply keeps_call|apply keeps_ret]. }
  eapply ensures_bind; [apply ctor_inv_set_callbacks|intros ?].
  rewrite app_nil_r. apply ctor_inv_initialize.
Qed.

(** What holds when the constructor has returned. *)
Lemma Screen_ctor_post this a W W' :
  Screen_ctor B ScreenCore_ctor ScreenCore_init this a W = Return tt W' →
  ∃ w, ctor_inv B w this
         (λ s, mGLFWWindow s = Some w ∧ mShutdownGLFWOnDestruct s = true)
         (rev all_callbacks) true W'.
Proof.
  unfold Screen_ctor, constructing.
  destruct (heap W !! this); [done|].
  match goal with |- match ?m W with _ => _ end = _ → _ => set (body := m) end.
  destruct (body W) as [[] W1| | |] eqn:Hrun; try done. intros [= <-].
  revert Hrun. subst body.
  match goal with |- (?m ≫= ?f) W = _ → _ =>
    apply (ensures_bind m f (λ _, True) (λ _, obj B this (λ _, True))
             (λ _ W', ∃ w, ctor_inv B w this
                (λ s, mGLFWWindow s = Some w ∧ mShutdownGLFWOnDestruct s = true)
                (rev all_callbacks) true W')); [| |done]
  end.
  - apply ensures_modify. intros W0 _. eexists. split; [apply lookup_insert_eq|done].
  - intros _.
    eapply ensures_bind; [apply keeps_calls, obj_stable_host|intros ?].
    eapply ensures_bind with
      (R := λ r W, obj B this (λ _, True) W
                   ∧ match r with Some w => live B w W | None => True end).
    { destruct (arg_fullscreen a).
      - eapply ensures_bind;
          [apply keeps_getPrimaryVideoMode, obj_stable_host|intros mode].
        apply createWindow_ensures, obj_stable_host.
      - apply createWindow_ensures, obj_stable_host. }
    intros [w|].
    + eapply ensures_bind with (R := λ _, ctor_inv B w this (λ _, True) [] false).
      * unfold update.
        eapply ensures_bind; [apply ensures_read|intros s].
        apply ensures_modify. intros W0 [[(s' & Hs' & _) Hlive] Hs].
        repeat split; try done.
        -- eexists. split; [apply lookup_insert_eq|done].
        -- by intros k Hk%elem_of_nil.
      * intros ?. eapply ensures_weaken;
          [apply Screen_ctor_with_window_ensures|done|].
        intros ? W0 H0. by exists w.
    + eapply ensures_bind with (R := λ _ _, True).
      * by intros ? ? ? ? ?.
      * intros ?. apply ensures_throw.
Qed.


(** ** The destructor *)

Lemma destroy_cursors_run cs W :
  destroy_cursors B cs W = Return tt (set_host B (destroy_cursors_host B cs) W).
Proof.
  revert W. induction cs as [|[c|] cs IH]; intros W; simpl.
  - by destruct W.
  - unfold destroyCursor. unfold_M. cbn. rewrite IH. by destruct W.
  - apply IH.
Qed.

Lemma destroy_cursors_host_spec cs (h : Host B) :
  windows (destroy_cursors_host B cs h) = windows h ∧
  callbacks (destroy_cursors_host B cs h) = callbacks h ∧
  cursors (destroy_cursors_host B cs h)
  = cursors h ∖ list_to_set (omap id cs) ∧
  log (destroy_cursors_host B cs h)
  = log h ++ map glfwDestroyCursor (omap id cs).
Proof.
  revert h. induction cs as [|[c|] cs IH]; intros h; simpl.
  - repeat split; [by rewrite difference_empty_L|by rewrite app_nil_r].
  - destruct (IH (set_cursors B (λ x, x ∖ {[c]}) (add_log B (glfwDestroyCursor c) h)))
      as (-> & -> & -> & ->). cbn.
    repeat split; [by rewrite difference_difference_l_L|by rewrite <- app_assoc].
  - apply IH.
Qed.

Lemma bind_Return {A C} (m : M B A) (f : A → M B C) W c W' :
  (m ≫= f) W = Return c W' →
  ∃ a W1, m W = Return a W1 ∧ f a W1 = Return c W'.
Proof.
  unfold mbind, M_bind. destruct (m W) as [a W1| | |]; try done.
  intros H. by exists a, W1.
Qed.

Lemma update_Return this f W u W' :
  update B this f W = Return u W' →
  ∃ s, heap W !! this = Some s ∧ W' = set_heap B <[this := f s]> W.
Proof.
  unfold update. unfold_M. destruct (heap W !! this) as [s|]; [|done].
  intros [= <- <-]. by exists s.
Qed.

Lemma getWindowSize_Return ow W sz W' :
  getWindowSize B ow W = Return sz W' →
  ∃ w, ow = Some w ∧ is_Some (windows (host W) !! w).
Proof.
  unfold getWindowSize, window_info. unfold_M. cbn.
  destruct ow as [w|]; cbn; [|done].
  destruct (windows (host W) !! w) eqn:Hw; [|done]. intros _. by exists w.
Qed.

(** [initialize] returns only for a window that exists and an object at
    [this]. *)
Lemma initialize_Return this ow flag W W' :
  initialize B ScreenCore_init this ow flag W = Return tt W' →
  ∃ w, ow = Some w ∧ live B w W ∧ obj B this (λ _, True) W.
Proof.
  unfold initialize.
  intros (u1 & W1 & (s1 & Hs1 & ->)%update_Return & H)%bind_Return.
  apply bind_Return in H as (u2 & W2 & (s2 & Hs2 & ->)%update_Return & H).
  apply bind_Return in H as (sz & W3 & (w & -> & Hw)%getWindowSize_Return & _).
  exists w. repeat split; [done|by exists s1].
Qed.

(** C8 (amended): the destructor erases the registry entry of the window
    handle of the [Screen], destroys every cursor of its table that is not
    null, and destroys the window exactly when the handle is not null and
    [mShutdownGLFWOnDestruct] is set. The size/caption constructor sets that
    flag, for the window it creates; [initialize(window, flag)] sets it to
    the flag its caller passes, so a window supplied from outside is
    destroyed as well when the caller passes [true]. *)
Theorem destructor_releases this :
  (∀ W s,
     heap W !! this = Some s →
     ∃ W', Screen_dtor B this W = Return tt W' ∧
       heap W' = delete this (heap W) ∧
       nanogui_screens W' = delete (mGLFWWindow s) (nanogui_screens W) ∧
       cursors (host W')
       = cursors (host W) ∖ list_to_set (omap id (mCursors s)) ∧
       windows (host W')
       = match mGLFWWindow s with
         | Some w =>
             if mShutdownGLFWOnDestruct s then delete w (windows (host W))
             else windows (host W)
         | None => windows (host W)
         end) ∧
  (∀ a W W',
     Screen_ctor B ScreenCore_ctor ScreenCore_init this a W = Return tt W' →
     ∃ s w, heap W' !! this = Some s ∧ mGLFWWindow s = Some w ∧
            mShutdownGLFWOnDestruct s = true) ∧
  (∀ ow flag W W',
     initialize B ScreenCore_init this ow flag W = Return tt W' →
     ∃ s, heap W' !! this = Some s ∧ mGLFWWindow s = ow ∧
          mShutdownGLFWOnDestruct s = flag).
Proof.
  split; [|split].
  - intros W s Hs. unfold Screen_dtor. unfold_M. cbn. rewrite Hs. cbn.
    rewrite destroy_cursors_run.
    destruct (destroy_cursors_host_spec (mCursors s) (host W))
      as (Hwin & _ & Hcur & _).
    destruct (mGLFWWindow s) as [w|]; [destruct (mShutdownGLFWOnDestruct s)|];
      cbn; (eexists; split; [reflexivity|]); cbn; by rewrite ?Hwin, ?Hcur.
  - intros a W W' (w & _ & (s & Hs & Hw & Hflag) & _)%Screen_ctor_post.
    by exists s, w.
  - intros ow flag W W' Hrun.
    destruct (initialize_Return _ _ _ _ _ Hrun) as (w & -> & Hlive & Hobj).
    destruct (ctor_inv_initialize w this (λ _, True) [] false flag W tt W')
      as (_ & (s & Hs & Hw & Hflag) & _); [|done|by exists s].
    repeat split; try done. by intros k Hk%elem_of_nil.
Qed.

(** C9: when [glfwCreateWindow] returns null, and when the GL loader, run
    for the first time, fails, the constructor throws a [std::runtime_error]
    and no [Screen] has come to be. *)
Theorem constructor_failure_throws this a W :
  heap W !! this = None →
  (arg_fullscreen a = true → is_Some (primary_monitor B (host W))) →
  (next_window B (host W) = None →
     ∃ W', Screen_ctor B ScreenCore_ctor ScreenCore_init this a W
           = Throw (std_exception (no_context_message a)) W'
           ∧ heap W' !! this = None) ∧
  (∀ w i, next_window B (host W) = Some (w, i) →
     NANOGUI_GLAD B = true → gladInitialized W = false →
     loader_ok B (host W) = false →
     ∃ W', Screen_ctor B ScreenCore_ctor ScreenCore_init this a W
           = Throw (std_exception "Could not initialize GLAD!") W'
           ∧ heap W' !! this = None).
Proof.
  intros Hthis Hmon.
  assert (∃ mode, arg_fullscreen a = true → primary_monitor B (host W) = Some mode)
    as [mode Hmode].
  { destruct (arg_fullscreen a); [|by exists (0, 0)].
    destruct Hmon as [mode Hmode]; [done|]. by exists mode. }
  unfold Screen_ctor, constructing, Screen_ctor_with_window, glad_init,
    loadGLLoader, createWindow, getPrimaryVideoMode, next_window,
    no_context_message.
  rewrite Hthis. split.
  - intros Hnext.
    destruct (arg_fullscreen a);
      destruct (pending_windows B (host W)) as [|[[w' i']|] rest] eqn:Hpend;
      try done; repeat progress (unfold_M; cbn);
      rewrite ?Hmode, ?Hpend by done; cbn;
      rewrite ?Hpend; cbn; rewrite ?lookup_insert_eq; cbn;
      (eexists; split; [reflexivity|]); cbn; apply lookup_delete_eq.
  - intros w i Hnext Hglad Hinit Hload. rewrite Hglad.
    destruct (pending_windows B (host W)) as [|[[w' i']|] rest] eqn:Hpend;
      try done.
    destruct (arg_fullscreen a); repeat progress (unfold_M; cbn);
      rewrite ?Hmode, ?Hpend by done; cbn;
      rewrite ?Hpend; cbn; rewrite ?lookup_insert_eq; cbn;
      rewrite Hinit, ?Hload; cbn; rewrite ?Hload; cbn;
      (eexists; split; [reflexivity|]); cbn; apply lookup_delete_eq.
Qed.

End screen_facts.

(** ** In the example world *)

Lemma constructed_returns : constructed = Return tt constructed_world.
Proof. computed. Qed.

Lemma constructed_lookup :
  heap constructed_world !! 1%positive = Some constructed_screen.
Proof. computed. Qed.

Lemma constructed_window :
  windows (host constructed_world) !! 1%positive
  = Some {| fb_size := (1600, 1200); win_size := (800, 600);
            win_visible := false |}.
Proof. computed. Qed.

Lemma setters_forward_to_host_witness :
  setVisible example_build 1%positive false constructed_world
  = Return tt constructed_world ∧
  setCaption example_build 1%positive "NanoGUI" constructed_world
  = Return tt constructed_world ∧
  setSize example_build 1%positive (1024, 768) constructed_world
  = Return tt
      (set_host example_build
         (add_log example_build (glfwSetWindowSize (Some 1%positive) 1024 768))
         (set_heap example_build
            <[1%positive := set_mSize example_build (1024, 768) constructed_screen]>
            constructed_world)).
Proof.
  destruct (setters_forward_to_host example_build 1%positive constructed_world
              constructed_screen constructed_lookup)
    as (Hv & _ & Hc & _ & Hs).
  split; [by apply Hv|]. split; [by apply Hc|]. exact (Hs (1024, 768)).
Defined.

(** C2, as stated, fails for [setSize]: called with the stored size of 800
    by 600, it calls [glfwSetWindowSize] all the same. *)
Lemma setSize_does_not_short_circuit :
  ¬ setSize_short_circuits example_build 1%positive constructed_world.
Proof.
  intros H. specialize (H constructed_screen constructed_lookup).
  assert (match setSize example_build 1%positive (800, 600) constructed_world with
          | Return _ W' => length (log (host W'))
          | _ => 0%nat
          end = 45%nat) as Hlen by computed.
  assert (length (log (host constructed_world)) = 44%nat) as Hlen0 by computed.
  change (setSize example_build 1%positive (800, 600) constructed_world
          = Return tt constructed_world) in H.
  rewrite H in Hlen. congruence.
Qed.

(** C4, at the failing inputs. The guard of [resizeCallbackEvent] reads the
    stored framebuffer size instead of the one of the event. So the event of
    a framebuffer of no size passes it, and the size of nothing is stored and
    handed on; and once a frame was drawn while the window was iconified, the
    stored size is nothing, and the resize event of the restored window, 1600
    by 1200 on 800 by 600, is turned away and leaves the stored sizes as they
    are. *)
Lemma resize_guard_reads_stored_size :
  ((λ i, (fb_size i, win_size i)) <$> windows (host empty_framebuffer) !! 1%positive
   = Some ((0, 0), (800, 600)) ∧
   resizeCallbackEvent example_build handler_accepts 1%positive empty_framebuffer
   = Return true after_empty_framebuffer ∧
   (λ s, mFBSize (base s)) <$> heap after_empty_framebuffer !! 1%positive
   = Some (0, 0)) ∧
  (drawAll example_build 1%positive iconified = Return tt after_iconified_frame ∧
   (λ s, mFBSize (base s)) <$> heap after_iconified_frame !! 1%positive
   = Some (0, 0) ∧
   (λ i, (fb_size i, win_size i)) <$> windows (host restored) !! 1%positive
   = Some ((1600, 1200), (800, 600)) ∧
   resizeCallbackEvent example_build handler_accepts 1%positive restored
   = Return false after_restored ∧
   heap after_restored = heap restored).
Proof. repeat split; computed. Qed.

Lemma resize_handler_exception_witness :
  resizeCallbackEvent example_build handler_throws_std 1%positive constructed_world
  = Abort after_std_exception ∧
  resizeCallbackEvent example_build handler_throws_int 1%positive constructed_world
  = Throw other_exception after_int_exception.
Proof.
  split.
  - destruct (resize_handler_exception example_build handler_throws_std
                1%positive constructed_world constructed_screen 1%positive _
                constructed_lookup eq_refl constructed_window)
      as [Hstd _]; [computed|].
    rewrite (Hstd "layout failed"%string _ eq_refl). computed.
  - destruct (resize_handler_exception example_build handler_throws_int
                1%positive constructed_world constructed_screen 1%positive _
                constructed_lookup eq_refl constructed_window)
      as [_ Hint]; [computed|].
    rewrite (Hint _ eq_refl). computed.
Defined.

(** C5, as stated, fails: what the handler throws that is not a
    [std::exception] reaches the caller of [resizeCallbackEvent]. *)
Lemma resize_handler_int_propagates :
  ¬ never_propagates example_build handler_throws_int 1%positive constructed_world.
Proof.
  intros H. apply (H other_exception after_int_exception). computed.
Qed.

Lemma drawAll_calls_in_order_witness :
  ∃ s' W',
    drawAll example_build 1%positive constructed_world = Return tt W' ∧
    heap W' = <[1%positive := s']> (heap constructed_world) ∧
    mPixelRatio (base s') = (1600 # 800)%Q ∧
    calls_since example_build constructed_world W'
    = [glClearColor (B := example_build) (3 # 10, 3 # 10, 32 # 100, 1)%Q;
       glClear;
       glfwMakeContextCurrent (Some 1%positive);
       glfwGetFramebufferSize (Some 1%positive);
       glfwGetWindowSize (Some 1%positive);
       glViewport 0 0 1600 1200; drawContents 1%positive;
       glfwSwapBuffers (Some 1%positive)].
Proof.
  destruct (drawAll_calls_in_order example_build 1%positive constructed_world
              constructed_screen 1%positive _
              constructed_lookup eq_refl constructed_window)
    as (s' & W' & Hrun & Hheap & _ & _ & Hlog & Hplain & _).
  destruct (Hplain eq_refl) as (Hfb & _ & Hratio).
  exists s', W'. repeat split; try done.
  unfold calls_since. rewrite Hlog, drop_app_length, Hfb. reflexivity.
Defined.

(** C6, as stated, fails: [drawAll] clears the buffer before it asks for the
    sizes. *)
Lemma drawAll_clears_before_sizes :
  ¬ sizes_before_clear example_build 1%positive constructed_world.
Proof.
  intros H. specialize (H drawn_world).
  assert (first_precedes example_build (is_size_query example_build)
            (is_clear example_build)
            (calls_since example_build constructed_world drawn_world) = false)
    as Hfalse by computed.
  rewrite H in Hfalse; [done|]. computed.
Qed.

Lemma external_lookup :
  heap external_world !! 1%positive = Some external_screen.
Proof. computed. Qed.

Lemma destructor_releases_witness :
  (∃ W', Screen_dtor example_build 1%positive constructed_world = Return tt W' ∧
         windows (host W') = delete 1%positive (windows (host constructed_world))) ∧
  (∃ s w, heap constructed_world !! 1%positive = Some s ∧
          mGLFWWindow s = Some w ∧ mShutdownGLFWOnDestruct s = true) ∧
  (∃ s, heap external_world !! 1%positive = Some s ∧
        mGLFWWindow s = Some 7%positive ∧ mShutdownGLFWOnDestruct s = true).
Proof.
  destruct (destructor_releases example_build example_core example_init
              1%positive)
    as (Hdtor & Hctor & Hinit).
  split; [|split].
  - destruct (Hdtor constructed_world constructed_screen constructed_lookup)
      as (W' & Hrun & _ & _ & _ & Hwin).
    by exists W'.
  - exact (Hctor example_args world0 constructed_world constructed_returns).
  - apply (Hinit (Some 7%positive) true external_world_constructed external_world).
    computed.
Defined.

(** C8, as stated, fails: a window the host made, handed to [initialize]
    with the flag set, is destroyed by the destructor although the program
    never created a window. *)
Lemma destructor_destroys_external_window :
  ¬ destroys_only_created_window example_build 1%positive external_world.
Proof.
  intros H.
  assert (asked_for_window example_build external_world) as Hasked.
  { apply (H external_screen 7%positive external_world_destroyed).
    - apply external_lookup.
    - reflexivity.
    - unfold live.
      replace (windows (host external_world) !! 7%positive)
        with (Some {| fb_size := (640, 480); win_size := (640, 480);
                      win_visible := true |}) by (symmetry; computed).
      by eexists.
    - computed.
    - unfold live.
      replace (windows (host external_world_destroyed) !! 7%positive)
        with (@None Window) by (symmetry; computed).
      by intros [? ?]. }
  revert Hasked. unfold asked_for_window.
  replace (existsb (is_create_window example_build) (log (host external_world)))
    with false by (symmetry; computed).
  done.
Qed.

Lemma constructor_failure_throws_witness :
  (∃ W', Screen_ctor example_build example_core example_init 1%positive
           example_args world_without_window
         = Throw (std_exception "Could not create an OpenGL 3.3 context!") W'
         ∧ heap W' !! 1%positive = None) ∧
  (∃ W', Screen_ctor example_build example_core example_init 1%positive
           example_args world_with_failing_loader
         = Throw (std_exception "Could not initialize GLAD!") W'
         ∧ heap W' !! 1%positive = None).
Proof.
  split.
  - destruct (constructor_failure_throws example_build example_core example_init
                1%positive example_args world_without_window)
      as [Hwin _]; [computed|done|].
    apply Hwin. reflexivity.
  - destruct (constructor_failure_throws example_build example_core example_init
                1%positive example_args world_with_failing_loader)
      as [_ Hload]; [computed|done|].
    apply (Hload 1%positive
             {| fb_size := (1600, 1200); win_size := (800, 600);
                win_visible := false |}); reflexivity.
Defined.

(** ** Further facts about [screen.cpp] *)

Section more_screen_facts.

Set Default Proof Using "Type".

Variable B : Build.
Variable ScreenCore_ctor : ScreenCore B.
Variable ScreenCore_init : Vector2i → float B → ScreenCore B → exn + ScreenCore B.

Implicit Types (W : World B) (s : Screen B) (this : addr) (w : GLFWwindow).

(** X5: a resize event that the guard of [resizeCallbackEvent] turns away,
    because the stored framebuffer size or the size of the window is nothing,
    is answered with [false]; the two sizes were asked of the host, nothing
    was stored, and the handler was not called: the outcome is the same for
    every handler. *)
Theorem resize_rejected_changes_nothing this W s w i :
  heap W !! this = Some s → mGLFWWindow s = Some w →
  windows (host W) !! w = Some i →
  mFBSize (base s) = (0, 0) ∨ event_size B s i = (0, 0) →
  ∃ W', (∀ resizeEvent,
           resizeCallbackEvent B resizeEvent this W = Return false W') ∧
        heap W' = heap W ∧ nanogui_screens W' = nanogui_screens W ∧
        windows (host W') = windows (host W) ∧
        log (host W')
        = log (host W)
          ++ [glfwGetFramebufferSize (Some w); glfwGetWindowSize (Some w)].
Proof.
  intros Hs Hw Hi Hzero. exists (resize_queried B s W). split.
  - intros resizeEvent.
    rewrite (resizeCallbackEvent_run B resizeEvent this W s w i Hs Hw Hi).
    unfold resize_rejected.
    destruct Hzero as [Hz|Hz]; rewrite (bool_decide_eq_true_2 _ Hz);
      by rewrite ?orb_true_r.
  - unfold resize_queried. cbn. rewrite Hw, <- app_assoc. done.
Qed.

(** X6: while the stored framebuffer size is nothing, no resize event gets
    through, whatever the window system reports: every event of a sequence is
    answered with [false], and the objects are left as they were; only
    [drawAll] stores a framebuffer size again. *)
Theorem resize_events_rejected_while_framebuffer_empty
    resizeEvent this w reports W s :
  heap W !! this = Some s → mGLFWWindow s = Some w →
  mFBSize (base s) = (0, 0) →
  ∃ W', resize_events B resizeEvent this w reports W
        = Return (replicate (length reports) false) W' ∧
        heap W' = heap W.
Proof.
  intros Hs Hw Hz. revert W Hs.
  induction reports as [|i reports IH]; intros W Hs; [by exists W|].
  destruct (IH (resize_queried B s (host_reports B w i W))) as (W' & Hrun & Hheap);
    [done|].
  exists W'. split; [|by rewrite Hheap].
  assert (resizeCallbackEvent B resizeEvent this (host_reports B w i W)
          = Return false (resize_queried B s (host_reports B w i W))) as Hstep.
  { rewrite (resizeCallbackEvent_run B resizeEvent this
               (host_reports B w i W) s w i Hs Hw)
      by apply lookup_insert_eq.
    unfold resize_rejected. by rewrite (bool_decide_eq_true_2 _ Hz). }
  simpl. unfold mbind, M_bind, modify, mret, M_ret.
  by rewrite Hstep, Hrun.
Qed.

(** X7: a resize event that passes the guard: the framebuffer size and the
    window size of the event are stored in the object, nothing else of it
    changes, and the handler is called with the window size; what the handler
    answers is what [resizeCallbackEvent] answers. *)
Theorem resize_accepted_stores_then_asks resizeEvent this W s w i :
  heap W !! this = Some s → mGLFWWindow s = Some w →
  windows (host W) !! w = Some i →
  resize_rejected B s i = false →
  ∃ s1 W1,
    heap W1 = <[this := s1]> (heap W) ∧
    base s1 = core_set_mSize B (event_size B s i)
                (core_set_mFBSize B (fb_size i) (base s)) ∧
    set_base B (λ _, base s) s1 = s ∧
    ∀ b W2, resizeCallbackEvent B resizeEvent this W = Return b W2
            ↔ resizeEvent this (event_size B s i) W1 = Return b W2.
Proof.
  intros Hs Hw Hi Hg.
  exists (set_mSize B (event_size B s i) (set_mFBSize B (fb_size i) s)),
         (resize_accepted B this s i W).
  split; [done|]. split; [done|]. split; [by destruct s|].
  intros b W2.
  rewrite (resizeCallbackEvent_run B resizeEvent this W s w i Hs Hw Hi), Hg.
  by destruct (resizeEvent _ _ _) as [b' W'|[what|] W'|W'|].
Qed.

(** X8: a [Screen] without a window, or with a window that exists no more,
    can neither be drawn, nor take a resize event, nor be initialised with
    that window: each of the three asks the host for the size of the
    window. *)
Theorem window_needed this W s :
  heap W !! this = Some s →
  mGLFWWindow s ≫= (windows (host W) !!.) = None →
  drawAll B this W = Undefined ∧
  (∀ resizeEvent, resizeCallbackEvent B resizeEvent this W = Undefined) ∧
  (∀ flag, initialize B ScreenCore_init this (mGLFWWindow s) flag W = Undefined).
Proof.
  intros Hs Hno.
  repeat split; intros;
    unfold drawAll, resizeCallbackEvent, initialize, getFramebufferSize,
      getWindowSize, window_info;
    destruct (mGLFWWindow s) as [w|] eqn:Hw; simpl in Hno;
    run_with Hs Hw Hno; done.
Qed.

(** ** The end of a [Screen] *)

(** What the destructor does, part by part. *)
Lemma Screen_dtor_run this W s :
  heap W !! this = Some s →
  ∃ W', Screen_dtor B this W = Return tt W' ∧
    heap W' = delete this (heap W) ∧
    nanogui_screens W' = delete (mGLFWWindow s) (nanogui_screens W) ∧
    gladInitialized W' = gladInitialized W ∧
    callbacks (host W') = callbacks (host W) ∧
    cursors (host W')
    = cursors (host W) ∖ list_to_set (omap id (mCursors s)) ∧
    windows (host W')
    = match mGLFWWindow s with
      | Some w =>
          if mShutdownGLFWOnDestruct s then delete w (windows (host W))
          else windows (host W)
      | None => windows (host W)
      end ∧
    log (host W')
    = log (host W) ++ map glfwDestroyCursor (omap id (mCursors s))
      ++ match mGLFWWindow s with
         | Some w =>
             if mShutdownGLFWOnDestruct s then [glfwDestroyWindow w] else []
         | None => []
         end.
Proof.
  intros Hs. unfold Screen_dtor. unfold_M. cbn. rewrite Hs. cbn.
  rewrite destroy_cursors_run.
  destruct (destroy_cursors_host_spec B (mCursors s) (host W))
    as (Hwin & Hcb & Hcur & Hlog).
  destruct (mGLFWWindow s) as [w|]; [destruct (mShutdownGLFWOnDestruct s)|];
    cbn; (eexists; split; [reflexivity|]); cbn;
    rewrite ?Hwin, ?Hcur, ?Hcb, ?Hlog, <- ?app_assoc, ?app_nil_r; done.
Qed.

(** X9: once a [Screen] is destroyed, the registry knows no [Screen] for its
    window: no event of the window reaches an object any more, also when the
    window itself lives on (it was supplied from outside and not to be shut
    down) and the callbacks of the constructor are still set for it. *)
Theorem destroyed_screen_gets_no_event this W s w W' :
  heap W !! this = Some s → mGLFWWindow s = Some w →
  Screen_dtor B this W = Return tt W' →
  heap W' !! this = None ∧
  callback_target B w W' = None ∧
  (∀ k, host_event B k w W' = None) ∧
  callbacks (host W') = callbacks (host W) ∧
  (mShutdownGLFWOnDestruct s = false →
   windows (host W') = windows (host W)).
Proof.
  intros Hs Hw Hrun.
  destruct (Screen_dtor_run this W s Hs)
    as (W1 & Hrun1 & Hheap & Hreg & _ & Hcb & _ & Hwin & _).
  rewrite Hrun in Hrun1. injection Hrun1 as <-.
  assert (nanogui_screens W' !! Some w = None) as Hnone.
  { rewrite Hreg, Hw. apply lookup_delete_eq. }
  repeat split; try done.
  - rewrite Hheap. apply lookup_delete_eq.
  - intros k. unfold host_event, screen_callback. rewrite Hnone.
    by destruct (_ && _).
  - intros Hflag. by rewrite Hwin, Hw, Hflag.
Qed.

(** X10: a default-constructed [Screen] owns nothing of the host: to
    construct and destroy it makes no call and leaves the host and the
    objects as they were; the destructor erases the registry entry for the
    null handle, whoever made it. *)
Theorem default_screen_owns_nothing this W :
  heap W !! this = None →
  ∃ W1 W2,
    Screen_default_ctor B ScreenCore_ctor this W = Return tt W1 ∧
    heap W1 = <[this := fresh_screen B ScreenCore_ctor "" false]> (heap W) ∧
    Screen_dtor B this W1 = Return tt W2 ∧
    host W2 = host W ∧ heap W2 = heap W ∧
    gladInitialized W2 = gladInitialized W ∧
    nanogui_screens W2 = delete None (nanogui_screens W).
Proof.
  intros Hthis.
  assert (∀ n (h : Host B), destroy_cursors_host B (replicate n None) h = h) as Hnone.
  { intros n h. induction n as [|n IH]; [done|apply IH]. }
  unfold Screen_default_ctor, constructing, Screen_dtor. rewrite Hthis.
  unfold_M. cbn.
  eexists _, _. split; [reflexivity|]. split; [reflexivity|].
  cbn. rewrite lookup_insert_eq. cbn.
  rewrite destroy_cursors_run. cbn.
  split; [reflexivity|]. cbn. rewrite Hnone. repeat split; try done.
  by rewrite delete_insert_eq, delete_id.
Qed.

(** ** The version numbers as [glfwWindowHint] receives them *)

Lemma to_int_spec (n : Z) :
  -2147483648 ≤ to_int n < 2147483648 ∧
  to_int n mod 4294967296 = n mod 4294967296 ∧
  (0 ≤ n < 2147483648 → to_int n = n) ∧
  (2147483648 ≤ n < 4294967296 → to_int n = n - 4294967296).
Proof.
  unfold to_int.
  pose proof (Z.mod_pos_bound (n + 2147483648) 4294967296 eq_refl) as Hbound.
  split; [lia|]. split; [|split].
  - rewrite Zminus_mod, Zmod_mod, <- Zminus_mod.
    f_equal. lia.
  - intros Hn. rewrite Z.mod_small by lia. lia.
  - intros Hn.
    replace (n + 2147483648) with (n - 2147483648 + 1 * 4294967296) by lia.
    rewrite Z.mod_add by done. rewrite Z.mod_small by lia. lia.
Qed.

(** ** A constructor that fails *)

(** The constructor when the host has no window for it. *)
Lemma Screen_ctor_no_window_run this a W :
  heap W !! this = None →
  (arg_fullscreen a = true → is_Some (primary_monitor B (host W))) →
  next_window B (host W) = None →
  ∃ W', Screen_ctor B ScreenCore_ctor ScreenCore_init this a W
        = Throw (std_exception (no_context_message a)) W' ∧
    heap W' = heap W ∧ nanogui_screens W' = nanogui_screens W ∧
    gladInitialized W' = gladInitialized W ∧
    windows (host W') = windows (host W) ∧
    cursors (host W') = cursors (host W) ∧
    callbacks (host W') = callbacks (host W) ∧
    log (host W') = log (host W) ++ window_request B a (host W).
Proof.
  intros Hthis Hmon Hnext.
  assert (∃ mode, primary_monitor B (host W) = mode ∧
                  (arg_fullscreen a = true → ∃ m, mode = Some m))
    as (mode & Hmode & Hsome) by (by eexists).
  unfold Screen_ctor, constructing, createWindow, getPrimaryVideoMode,
    no_context_message, window_request, window_hints.
  unfold next_window in Hnext. rewrite Hthis, Hmode.
  destruct (arg_fullscreen a) eqn:Hfull.
  - destruct Hsome as [m ->]; [done|].
    destruct (pending_windows B (host W)) as [|[[w' i']|] rest] eqn:Hpend;
      try done; repeat progress (unfold_M; cbn);
      rewrite ?Hmode, ?Hpend; cbn; rewrite ?Hpend; cbn;
      rewrite ?lookup_insert_eq; cbn;
      (eexists; split; [reflexivity|]); cbn;
      rewrite <- ?app_assoc; cbn;
      repeat split; try done;
      by rewrite insert_insert_eq, delete_insert_eq, delete_id.
  - destruct (pending_windows B (host W)) as [|[[w' i']|] rest] eqn:Hpend;
      try done; repeat progress (unfold_M; cbn);
      rewrite ?Hpend; cbn; rewrite ?Hpend; cbn;
      rewrite ?lookup_insert_eq; cbn;
      (eexists; split; [reflexivity|]); cbn;
      rewrite <- ?app_assoc; cbn;
      repeat split; try done;
      by rewrite insert_insert_eq, delete_insert_eq, delete_id.
Qed.

(** The constructor when the loader, run for the first time, fails. *)
Lemma Screen_ctor_loader_fails_run this a W w i rest :
  heap W !! this = None →
  (arg_fullscreen a = true → is_Some (primary_monitor B (host W))) →
  pending_windows B (host W) = Some (w, i) :: rest →
  loader_fails B W = true →
  ∃ W', Screen_ctor B ScreenCore_ctor ScreenCore_init this a W
        = Throw (std_exception "Could not initialize GLAD!") W' ∧
    heap W' = heap W ∧ nanogui_screens W' = nanogui_screens W ∧
    gladInitialized W' = true ∧
    windows (host W') = <[w := i]> (windows (host W)) ∧
    cursors (host W') = cursors (host W) ∧
    callbacks (host W') = callbacks (host W) ∧
    log (host W')
    = log (host W) ++ window_request B a (host W)
      ++ [glfwMakeContextCurrent (Some w); gladLoadGLLoader].
Proof.
  intros Hthis Hmon Hpend Hfails.
  assert (∃ mode, primary_monitor B (host W) = mode ∧
                  (arg_fullscreen a = true → ∃ m, mode = Some m))
    as (mode & Hmode & Hsome) by (by eexists).
  unfold loader_fails in Hfails.
  destruct (NANOGUI_GLAD B) eqn:Hglad, (gladInitialized W) eqn:Hinit,
    (loader_ok B (host W)) eqn:Hload; try done.
  unfold Screen_ctor, constructing, Screen_ctor_with_window, glad_init,
    loadGLLoader, createWindow, getPrimaryVideoMode, window_request,
    window_hints.
  rewrite Hthis, Hmode, Hglad.
  destruct (arg_fullscreen a) eqn:Hfull.
  all: try (destruct Hsome as [m ->]; [done|]).
  all: repeat progress (unfold_M; cbn;
         rewrite ?Hmode, ?Hpend, ?Hinit, ?Hload, ?lookup_insert_eq,
           ?insert_insert_eq).
  all: (eexists; split; [reflexivity|]); cbn;
         rewrite ?insert_insert_eq, <- ?app_assoc; cbn.
  all: repeat split; try done; by rewrite delete_insert_eq, delete_id.
Qed.

(** X11: when [glfwCreateWindow] returns null (and, for a window that is to
    fill the screen, there is a primary monitor) the constructor has asked
    the host for nothing but the window: the hints, with the two version
    numbers converted from [unsigned int] to [int] as [glfwWindowHint] takes
    them, the video mode of the monitor when the window is to fill the
    screen, and the window itself are all that was called; objects,
    registry, windows, cursors, callbacks and the flag of the loader are as
    they were. The message of the exception carries the version numbers as
    given, not converted. *)
Theorem failed_window_changes_nothing this a W :
  heap W !! this = None →
  (arg_fullscreen a = true → is_Some (primary_monitor B (host W))) →
  next_window B (host W) = None →
  ∃ W', Screen_ctor B ScreenCore_ctor ScreenCore_init this a W
        = Throw (std_exception (no_context_message a)) W' ∧
    heap W' = heap W ∧ nanogui_screens W' = nanogui_screens W ∧
    gladInitialized W' = gladInitialized W ∧
    windows (host W') = windows (host W) ∧
    cursors (host W') = cursors (host W) ∧
    callbacks (host W') = callbacks (host W) ∧
    calls_since B W W' = window_request B a (host W).
Proof.
  intros Hthis Hmon Hnext.
  destruct (Screen_ctor_no_window_run this a W Hthis Hmon Hnext)
    as (W' & Hrun & Hheap & Hreg & Hglad & Hwin & Hcur & Hcb & Hlog).
  exists W'. repeat split; try done.
  unfold calls_since. by rewrite Hlog, drop_app_length.
Qed.

(** X12: when the loader, run for the first time, fails (the host had a
    window and, for a window that is to fill the screen, a primary monitor),
    the constructor throws after it has made the window current: the calls
    are those of the request for the window, with the version numbers
    converted to [int], then [glfwMakeContextCurrent] and the loader; the
    object is gone and nothing is registered, but the window it created is
    still there, no callback is set for it, and the flag of the loader stays
    set, so that the loader is not run again by a later constructor or
    [initialize]. *)
Theorem failed_loader_leaves_window this a W w i rest :
  heap W !! this = None →
  (arg_fullscreen a = true → is_Some (primary_monitor B (host W))) →
  pending_windows B (host W) = Some (w, i) :: rest →
  loader_fails B W = true →
  ∃ W', Screen_ctor B ScreenCore_ctor ScreenCore_init this a W
        = Throw (std_exception "Could not initialize GLAD!") W' ∧
    heap W' = heap W ∧ nanogui_screens W' = nanogui_screens W ∧
    windows (host W') !! w = Some i ∧
    callbacks (host W') = callbacks (host W) ∧
    calls_since B W W'
    = window_request B a (host W)
      ++ [glfwMakeContextCurrent (Some w); gladLoadGLLoader] ∧
    glad_init B W' = Return tt W'.
Proof.
  intros Hthis Hmon Hpend Hfails.
  destruct (Screen_ctor_loader_fails_run this a W w i rest Hthis Hmon Hpend Hfails)
    as (W' & Hrun & Hheap & Hreg & Hglad & Hwin & Hcur & Hcb & Hlog).
  exists W'. repeat split; try done.
  - rewrite Hwin. apply lookup_insert_eq.
  - unfold calls_since. by rewrite Hlog, drop_app_length.
  - unfold glad_init. destruct (NANOGUI_GLAD B); [|done].
    unfold_M. cbn. by rewrite Hglad.
Qed.

Lemma cursor_table_length answers shapes cs :
  length (cursor_table answers shapes cs) = length cs.
Proof.
  unfold cursor_table. revert cs.
  induction shapes as [|i shapes IH]; intros cs; simpl; [done|].
  by rewrite IH, length_insert.
Qed.

Lemma cursor_table_other answers shapes cs j :
  j ∉ shapes → cursor_table answers shapes cs !! j = cs !! j.
Proof.
  unfold cursor_table. revert cs.
  induction shapes as [|i shapes IH]; intros cs Hj; simpl; [done|].
  apply not_elem_of_cons in Hj as [Hne Hj].
  rewrite IH by done. by apply list_lookup_insert_ne.
Qed.

Lemma cursor_table_lookup answers shapes cs j :
  j ∈ shapes → (j < length cs)%nat →
  cursor_table answers shapes cs !! j = Some (cursor_answer answers j).
Proof.
  revert cs. induction shapes as [|i shapes IH]; intros cs Hj Hlen.
  - by apply elem_of_nil in Hj.
  - change (cursor_table answers (i :: shapes) cs)
      with (cursor_table answers shapes (<[i:=cursor_answer answers i]> cs)).
    destruct (decide (j ∈ shapes)) as [Hin|Hnot].
    + apply IH; [done|by rewrite length_insert].
    + apply elem_of_cons in Hj as [->|Hj]; [|done].
      rewrite cursor_table_other by done. by apply list_lookup_insert_eq.
Qed.

Lemma bind_run {A C} (m : M B A) (f : A → M B C) W a W1 r :
  m W = Return a W1 → f a W1 = r → (m ≫= f) W = r.
Proof. intros Hm Hf. unfold mbind, M_bind. by rewrite Hm. Qed.

Lemma update_run this f W s :
  heap W !! this = Some s →
  update B this f W = Return tt (set_heap B <[this := f s]> W).
Proof. intros Hs. unfold update. unfold_M. by rewrite Hs. Qed.

Lemma createStandardCursor_run i W :
  ∃ W1, createStandardCursor B i W
        = Return (cursor_answer (std_cursors B (host W)) i) W1 ∧
    heap W1 = heap W ∧ nanogui_screens W1 = nanogui_screens W ∧
    gladInitialized W1 = gladInitialized W ∧
    windows (host W1) = windows (host W) ∧
    callbacks (host W1) = callbacks (host W) ∧
    std_cursors B (host W1) = std_cursors B (host W) ∧
    cursors (host W1)
    = list_to_set (option_list (cursor_answer (std_cursors B (host W)) i))
      ∪ cursors (host W) ∧
    log (host W1) = log (host W) ++ [glfwCreateStandardCursor i].
Proof.
  unfold createStandardCursor, cursor_answer. unfold_M. cbn.
  destruct (std_cursors B (host W) !! i) as [[c|]|]; cbn;
    (eexists; split; [reflexivity|]); cbn; repeat split; try done;
    by rewrite ?union_empty_r_L, ?union_empty_l_L.
Qed.

(** The loop of [initialize] over the cursors. *)
Lemma create_cursors_run this shapes W s :
  heap W !! this = Some s →
  ∃ W', create_cursors B this shapes W = Return tt W' ∧
    heap W'
    = <[this := set_mCursors B
                  (cursor_table (std_cursors B (host W)) shapes (mCursors s)) s]>
        (heap W) ∧
    nanogui_screens W' = nanogui_screens W ∧
    gladInitialized W' = gladInitialized W ∧
    windows (host W') = windows (host W) ∧
    callbacks (host W') = callbacks (host W) ∧
    std_cursors B (host W') = std_cursors B (host W) ∧
    cursors (host W')
    = list_to_set (omap (cursor_answer (std_cursors B (host W))) shapes)
      ∪ cursors (host W) ∧
    log (host W') = log (host W) ++ map glfwCreateStandardCursor shapes.
Proof.
  revert W s. induction shapes as [|i shapes IH]; intros W s Hs.
  - exists W. simpl. repeat split; try done.
    + rewrite insert_id; [done|]. rewrite Hs. by destruct s.
    + by rewrite union_empty_l_L.
    + by rewrite app_nil_r.
  - destruct (createStandardCursor_run i W)
      as (W1 & Hrun1 & Hheap1 & Hreg1 & Hglad1 & Hwin1 & Hcb1 & Hstd1 & Hcur1 & Hlog1).
    set (s2 := set_mCursors B
                 (<[i:=cursor_answer (std_cursors B (host W)) i]> (mCursors s)) s).
    destruct (IH (set_heap B <[this := s2]> W1) s2)
      as (W' & Hrun & Hheap & Hreg & Hglad & Hwin & Hcb & Hstd & Hcur & Hlog).
    { apply lookup_insert_eq. }
    exists W'. split.
    { simpl. eapply bind_run; [exact Hrun1|].
      eapply bind_run; [|exact Hrun].
      rewrite (update_run this _ W1 s) by (by rewrite Hheap1). done. }
    cbn in *. rewrite Hheap, Hreg, Hglad, Hwin, Hcb, Hstd, Hcur, Hlog.
    rewrite Hheap1, Hreg1, Hglad1, Hwin1, Hcb1, Hstd1, Hcur1, Hlog1.
    rewrite insert_insert_eq, <- app_assoc.
    repeat split; try done.
    destruct (cursor_answer (std_cursors B (host W)) i) as [c|]; simpl.
    + rewrite union_empty_r_L, (assoc_L (∪)). f_equal. apply (comm_L (∪)).
    + by rewrite union_empty_l_L.
Qed.

(** [initialize] on an object and a window that exist: how it ends, and
    what it leaves. *)
Lemma initialize_cases this w flag W s i :
  heap W !! this = Some s → windows (host W) !! w = Some i →
  match initialize B ScreenCore_init this (Some w) flag W with
  | Return _ W' =>
      loader_fails B W = false ∧
      ∃ c, ScreenCore_init (win_size i) (found_pixel_ratio B (host W) i)
             (core_before_init B (host W) i (base s)) = inr c ∧
           heap W' = <[this := initialized_screen B w flag (host W) i c s]> (heap W) ∧
           nanogui_screens W' = <[Some w := this]> (nanogui_screens W) ∧
           gladInitialized W' = NANOGUI_GLAD B || gladInitialized W ∧
           windows (host W') = windows (host W) ∧
           callbacks (host W') = callbacks (host W) ∧
           cursors (host W')
           = list_to_set (omap (cursor_answer (std_cursors B (host W)))
                            (seq 0 (CursorCount B)))
             ∪ cursors (host W) ∧
           log (host W') = log (host W) ++ initialize_calls B w W i s
  | Throw e W' =>
      (if loader_fails B W then e = std_exception "Could not initialize GLAD!"
       else ScreenCore_init (win_size i) (found_pixel_ratio B (host W) i)
              (core_before_init B (host W) i (base s)) = inl e) ∧
      nanogui_screens W' = nanogui_screens W ∧
      cursors (host W') = cursors (host W) ∧
      windows (host W') = windows (host W) ∧
      callbacks (host W') = callbacks (host W) ∧
      ∃ s1, heap W' = <[this := s1]> (heap W) ∧
            mGLFWWindow s1 = Some w ∧ mShutdownGLFWOnDestruct s1 = flag
  | _ => False
  end.
Proof.
  intros Hs Hi.
  unfold initialize, get_pixel_ratio, getWindowSize, getFramebufferSize,
    getWindowAttrib_VISIBLE, window_info, init, glad_init, loadGLLoader,
    loader_fails, core_before_init, found_pixel_ratio,
    initialize_calls, loader_calls, ratio_calls.
  destruct (scaled_platform B) eqn:Hsc, (NANOGUI_GLAD B) eqn:Hglad,
    (gladInitialized W) eqn:Hinit, (loader_ok B (host W)) eqn:Hload;
    run_with Hs Hi Hinit.
  all: try destruct (negb (is_one B _) && negb (mFullscreen s)) eqn:Hresize.
  all: repeat (progress (run_with Hs Hi Hinit; rewrite ?Hload; cbn)).
  all: try match goal with
       | |- context [match ScreenCore_init ?a ?b ?c with _ => _ end] =>
           destruct (ScreenCore_init a b c) as [e|c0] eqn:Hc
       end.
  all: repeat (progress (run_with Hs Hi Hinit; rewrite ?Hload; cbn)).
  all: try match goal with
       | |- context [create_cursors _ ?t ?l ?Wx] =>
           destruct (create_cursors_run t l Wx _ (lookup_insert_eq _ _ _))
             as (W' & -> & Hheap & Hreg & Hgl & Hwin & Hcb & _ & Hcur & Hlog)
       end.
  all: try (split; [done|]; repeat split; try done;
            eexists; split; [by rewrite ?insert_insert_eq|done]).
  all: split; [done|]; exists c0; split; [done|].
  all: rewrite Hheap, Hreg, Hgl, Hwin, Hcb, Hcur, Hlog; cbn.
  all: rewrite ?insert_insert_eq, <- ?app_assoc; cbn.
  all: repeat split; done.
Qed.

Local Arguments initialize : simpl never.

(** The constructor up to its call of [initialize], when the host has a
    window for it and the loader does not fail. *)
Lemma Screen_ctor_run this a W w i rest :
  heap W !! this = None →
  (arg_fullscreen a = true → is_Some (primary_monitor B (host W))) →
  pending_windows B (host W) = Some (w, i) :: rest →
  loader_fails B W = false →
  ∃ Wp,
    Screen_ctor B ScreenCore_ctor ScreenCore_init this a W
    = match initialize B ScreenCore_init this (Some w) true Wp with
      | Throw e W' => Throw e (set_heap B (delete this) W')
      | r => r
      end ∧
    heap Wp = <[this := prepared_screen B ScreenCore_ctor a w i]> (heap W) ∧
    nanogui_screens Wp = nanogui_screens W ∧
    gladInitialized Wp = NANOGUI_GLAD B || gladInitialized W ∧
    windows (host Wp) = <[w := i]> (windows (host W)) ∧
    cursors (host Wp) = cursors (host W) ∧
    callbacks (host Wp) = ((w,.) <$> rev all_callbacks) ++ callbacks (host W) ∧
    std_cursors B (host Wp) = std_cursors B (host W) ∧
    os_pixel_ratio B (host Wp) = os_pixel_ratio B (host W) ∧
    log (host Wp) = log (host W) ++ constructor_calls B a w i W.
Proof.
  intros Hthis Hmon Hpend Hok.
  assert (∃ mode, primary_monitor B (host W) = mode ∧
                  (arg_fullscreen a = true → ∃ m, mode = Some m))
    as (mode & Hmode & Hsome) by (by eexists).
  unfold Screen_ctor, constructing, Screen_ctor_with_window, glad_init,
    loadGLLoader, createWindow, getPrimaryVideoMode, getFramebufferSize,
    window_info, constructor_calls, window_request, window_hints,
    loader_calls, prepared_screen, fresh_screen.
  unfold loader_fails in Hok. rewrite Hthis, Hmode.
  destruct (arg_fullscreen a) eqn:Hfull, (NANOGUI_GLAD B) eqn:Hglad,
    (gladInitialized W) eqn:Hinit, (loader_ok B (host W)) eqn:Hload,
    (apple_platform B) eqn:Happle; try done.
  all: try (destruct Hsome as [m ->]; [done|]).
  all: repeat progress (unfold_M; cbn;
         rewrite ?Hmode, ?Hpend, ?Hinit, ?Hload, ?lookup_insert_eq,
           ?insert_insert_eq).
  all: (eexists; split; [reflexivity|]); cbn;
         rewrite ?insert_insert_eq, <- ?app_assoc; cbn.
  all: repeat split; done.
Qed.

(** ** The constructor and [initialize], in full *)

Lemma found_pixel_ratio_ext (h h' : Host B) i :
  os_pixel_ratio B h = os_pixel_ratio B h' →
  found_pixel_ratio B h i = found_pixel_ratio B h' i.
Proof. unfold found_pixel_ratio. by intros ->. Qed.

Lemma core_before_init_ext (h h' : Host B) i c :
  os_pixel_ratio B h = os_pixel_ratio B h' →
  core_before_init B h i c = core_before_init B h' i c.
Proof.
  intros H. unfold core_before_init. by rewrite (found_pixel_ratio_ext h h' i H).
Qed.

Lemma initialized_screen_ext (h h' : Host B) w flag i c s :
  std_cursors B h = std_cursors B h' →
  initialized_screen B w flag h i c s = initialized_screen B w flag h' i c s.
Proof. unfold initialized_screen. by intros ->. Qed.

Lemma initialize_calls_ext w W W' i s :
  os_pixel_ratio B (host W') = os_pixel_ratio B (host W) →
  gladInitialized W' = NANOGUI_GLAD B || gladInitialized W →
  initialize_calls B w W' i s
  = initialize_calls B w (set_gladInitialized B true W) i s.
Proof.
  intros Hos Hgl. unfold initialize_calls, loader_calls. rewrite Hos, Hgl. cbn.
  by destruct (NANOGUI_GLAD B), (gladInitialized W).
Qed.

Lemma Screen_ctor_Return_inv this a W W' :
  Screen_ctor B ScreenCore_ctor ScreenCore_init this a W = Return tt W' →
  heap W !! this = None ∧
  (arg_fullscreen a = true → is_Some (primary_monitor B (host W))) ∧
  (∃ w i rest, pending_windows B (host W) = Some (w, i) :: rest) ∧
  loader_fails B W = false.
Proof.
  intros Hrun.
  assert (heap W !! this = None) as Hthis.
  { destruct (heap W !! this) eqn:Hthis; [|done].
    revert Hrun. unfold Screen_ctor, constructing. by rewrite Hthis. }
  assert (arg_fullscreen a = true → is_Some (primary_monitor B (host W))) as Hmon.
  { intros Hfull. destruct (primary_monitor B (host W)) eqn:Hm; [done|].
    exfalso. revert Hrun.
    unfold Screen_ctor, constructing, getPrimaryVideoMode. rewrite Hthis, Hfull.
    repeat progress (unfold_M; cbn; rewrite ?Hm). done. }
  assert (∃ w i rest, pending_windows B (host W) = Some (w, i) :: rest)
    as (w & i & rest & Hpend).
  { destruct (pending_windows B (host W)) as [|[[w i]|] rest] eqn:Hpend;
      [|by eauto|];
      destruct (Screen_ctor_no_window_run this a W Hthis Hmon) as (W1 & Hrun1 & _);
      try (by unfold next_window; rewrite Hpend); congruence. }
  repeat split; try done; [by eauto|].
  destruct (loader_fails B W) eqn:Hf; [|done].
  destruct (Screen_ctor_loader_fails_run this a W w i rest Hthis Hmon Hpend Hf)
    as (W1 & Hrun1 & _).
  congruence.
Qed.

(** What the constructor leaves when it returns. *)
Lemma Screen_ctor_result this a W W1 :
  Screen_ctor B ScreenCore_ctor ScreenCore_init this a W = Return tt W1 →
  ∃ w i rest c,
    heap W !! this = None ∧
    pending_windows B (host W) = Some (w, i) :: rest ∧
    ScreenCore_init (win_size i) (found_pixel_ratio B (host W) i)
      (core_before_init B (host W) i
         (base (prepared_screen B ScreenCore_ctor a w i))) = inr c ∧
    heap W1
    = <[this := initialized_screen B w true (host W) i c
                  (prepared_screen B ScreenCore_ctor a w i)]> (heap W) ∧
    nanogui_screens W1 = <[Some w := this]> (nanogui_screens W) ∧
    gladInitialized W1 = NANOGUI_GLAD B || gladInitialized W ∧
    windows (host W1) = <[w := i]> (windows (host W)) ∧
    callbacks (host W1) = ((w,.) <$> rev all_callbacks) ++ callbacks (host W) ∧
    cursors (host W1)
    = list_to_set (omap (cursor_answer (std_cursors B (host W)))
                     (seq 0 (CursorCount B)))
      ∪ cursors (host W) ∧
    log (host W1)
    = log (host W) ++ constructor_calls B a w i W
      ++ initialize_calls B w (set_gladInitialized B true W) i
           (prepared_screen B ScreenCore_ctor a w i).
Proof.
  intros Hrun.
  destruct (Screen_ctor_Return_inv this a W W1 Hrun)
    as (Hthis & Hmon & (w & i & rest & Hpend) & Hok).
  destruct (Screen_ctor_run this a W w i rest Hthis Hmon Hpend Hok)
    as (Wp & Hrunp & Hheap & Hreg & Hgl & Hwin & Hcur & Hcb & Hstd & Hos & Hlog).
  rewrite Hrun in Hrunp.
  pose proof (initialize_cases this w true Wp
                (prepared_screen B ScreenCore_ctor a w i) i) as Hcases.
  rewrite Hheap, Hwin, !lookup_insert_eq in Hcases.
  specialize (Hcases eq_refl eq_refl).
  destruct (initialize B ScreenCore_init this (Some w) true Wp)
    as [[] W'|e W'|W'|]; try done.
  injection Hrunp as ->.
  destruct Hcases as (_ & c & Hc & Hheap' & Hreg' & Hgl' & Hwin' & Hcb' & Hcur' & Hlog').
  exists w, i, rest, c.
  rewrite (found_pixel_ratio_ext _ _ i Hos), (core_before_init_ext _ _ i _ Hos) in Hc.
  rewrite (initialized_screen_ext _ _ w true i c _ Hstd) in Hheap'.
  rewrite (initialize_calls_ext w W Wp i _ Hos Hgl) in Hlog'.
  rewrite Hheap', Hreg', Hgl', Hwin', Hcb', Hcur', Hlog'.
  rewrite ?Hheap, ?Hreg, ?Hgl, ?Hwin, ?Hcb, ?Hcur, ?Hstd, ?Hlog, ?insert_insert_eq.
  rewrite <- ?app_assoc.
  repeat split; try done.
  by destruct (NANOGUI_GLAD B), (gladInitialized W).
Qed.

(** The constructor returns when the host has a window for it, the loader
    does not fail, and [ScreenCore::init] does not throw. *)
Lemma Screen_ctor_returns this a W w i rest c :
  heap W !! this = None →
  (arg_fullscreen a = true → is_Some (primary_monitor B (host W))) →
  pending_windows B (host W) = Some (w, i) :: rest →
  loader_fails B W = false →
  ScreenCore_init (win_size i) (found_pixel_ratio B (host W) i)
    (core_before_init B (host W) i
       (base (prepared_screen B ScreenCore_ctor a w i))) = inr c →
  ∃ W1, Screen_ctor B ScreenCore_ctor ScreenCore_init this a W = Return tt W1.
Proof.
  intros Hthis Hmon Hpend Hok Hc.
  destruct (Screen_ctor_run this a W w i rest Hthis Hmon Hpend Hok)
    as (Wp & Hrunp & Hheap & Hreg & Hgl & Hwin & Hcur & Hcb & Hstd & Hos & Hlog).
  pose proof (initialize_cases this w true Wp
                (prepared_screen B ScreenCore_ctor a w i) i) as Hcases.
  rewrite Hheap, Hwin, !lookup_insert_eq in Hcases.
  specialize (Hcases eq_refl eq_refl).
  rewrite Hrunp.
  destruct (initialize B ScreenCore_init this (Some w) true Wp)
    as [[] W'|e W'|W'|]; try done; [by exists W'|].
  exfalso. destruct Hcases as (He & _).
  assert (loader_fails B Wp = false) as Hokp.
  { unfold loader_fails. rewrite Hgl.
    by destruct (NANOGUI_GLAD B), (gladInitialized W). }
  rewrite Hokp in He.
  rewrite (found_pixel_ratio_ext _ _ i Hos), (core_before_init_ext _ _ i _ Hos) in He.
  congruence.
Qed.


(** X13: [initialize(w, flag)] on a window that exists, when the loader does
    not fail and [ScreenCore::init] does not throw, returns; the object then
    holds the window and the flag, its visibility is what the host reports of
    the window, its table has the cursors the host made, and its base is what
    [ScreenCore::init] made of the window size, the framebuffer size and the
    pixel ratio found; the registry maps the window to the object, so that
    the events of the window reach it; caption, background and the
    full-screen flag are kept; the calls are those of [initialize_calls], in
    that order. *)
Theorem initialize_registers this w flag W s i c :
  heap W !! this = Some s → windows (host W) !! w = Some i →
  loader_fails B W = false →
  ScreenCore_init (win_size i) (found_pixel_ratio B (host W) i)
    (core_before_init B (host W) i (base s)) = inr c →
  ∃ W', initialize B ScreenCore_init this (Some w) flag W = Return tt W' ∧
    heap W' = <[this := initialized_screen B w flag (host W) i c s]> (heap W) ∧
    nanogui_screens W' = <[Some w := this]> (nanogui_screens W) ∧
    callback_target B w W' = Some this ∧
    windows (host W') = windows (host W) ∧
    callbacks (host W') = callbacks (host W) ∧
    calls_since B W W' = initialize_calls B w W i s.
Proof.
  intros Hs Hi Hok Hc.
  pose proof (initialize_cases this w flag W s i Hs Hi) as Hcases.
  destruct (initialize B ScreenCore_init this (Some w) flag W)
    as [[] W'|e W'|W'|]; try done.
  - destruct Hcases as (_ & c' & Hc' & Hheap & Hreg & _ & Hwin & Hcb & _ & Hlog).
    rewrite Hc in Hc'. injection Hc' as <-.
    exists W'. repeat split; try done.
    + unfold callback_target. rewrite Hreg. apply lookup_insert_eq.
    + unfold calls_since. by rewrite Hlog, drop_app_length.
  - destruct Hcases as (He & _). rewrite Hok in He. congruence.
Qed.

(** X14: when [initialize] throws, because the loader fails or because
    [ScreenCore::init] throws, it has not come to register the object nor to
    create a cursor; but the object holds the window and the flag already,
    so that its destructor will deal with the window as the flag says. *)
Theorem initialize_failure_not_registered this w flag W s i e W' :
  heap W !! this = Some s → windows (host W) !! w = Some i →
  initialize B ScreenCore_init this (Some w) flag W = Throw e W' →
  (if loader_fails B W then e = std_exception "Could not initialize GLAD!"
   else ScreenCore_init (win_size i) (found_pixel_ratio B (host W) i)
          (core_before_init B (host W) i (base s)) = inl e) ∧
  nanogui_screens W' = nanogui_screens W ∧
  cursors (host W') = cursors (host W) ∧
  windows (host W') = windows (host W) ∧
  ∃ s1, heap W' !! this = Some s1 ∧
        mGLFWWindow s1 = Some w ∧ mShutdownGLFWOnDestruct s1 = flag.
Proof.
  intros Hs Hi Hrun.
  pose proof (initialize_cases this w flag W s i Hs Hi) as Hcases.
  rewrite Hrun in Hcases.
  destruct Hcases as (He & Hreg & Hcur & Hwin & _ & s1 & Hheap & Hw & Hflag).
  repeat split; try done.
  exists s1. split; [|done]. rewrite Hheap. apply lookup_insert_eq.
Qed.

(** X15: the calls of a constructor that returns, in order: the window
    hints, of which the first two carry the version numbers converted from
    [unsigned int] to [int]; the request for the window;
    [glfwMakeContextCurrent]; the loader when it has not run yet; the size
    of the framebuffer, the viewport and the clearing of the buffer; the swap
    interval and a swap of the buffers; a poll of the events on the Apple
    platform; the seven callbacks; and then the calls of [initialize], in
    which the loader does not run again. *)
Theorem constructor_calls_in_order this a W W1 :
  Screen_ctor B ScreenCore_ctor ScreenCore_init this a W = Return tt W1 →
  ∃ w i,
    windows (host W1) !! w = Some i ∧
    calls_since B W W1
    = constructor_calls B a w i W
      ++ initialize_calls B w (set_gladInitialized B true W) i
           (prepared_screen B ScreenCore_ctor a w i) ∧
    take 2 (calls_since B W W1)
    = [glfwWindowHint GLFW_CONTEXT_VERSION_MAJOR
         (hint_int (to_int (Z.of_N (arg_glMajor a))));
       glfwWindowHint GLFW_CONTEXT_VERSION_MINOR
         (hint_int (to_int (Z.of_N (arg_glMinor a))))] ∧
    loader_calls B (set_gladInitialized B true W) = [].
Proof.
  intros (w & i & rest & c & _ & _ & _ & _ & _ & _ & Hwin & _ & _ & Hlog)%Screen_ctor_result.
  assert (calls_since B W W1
          = constructor_calls B a w i W
            ++ initialize_calls B w (set_gladInitialized B true W) i
                 (prepared_screen B ScreenCore_ctor a w i)) as Hcalls.
  { unfold calls_since. by rewrite Hlog, drop_app_length. }
  exists w, i. split; [|split; [done|split]].
  - rewrite Hwin. apply lookup_insert_eq.
  - by rewrite Hcalls.
  - unfold loader_calls. cbn. by rewrite andb_false_r.
Qed.

(** X16: the object of a constructor that returns: it has the caption and
    the full-screen flag of the arguments and the default background, holds
    the window the host created and is to shut it down, is visible exactly
    when the host reports the window visible, and has in its table, for every
    cursor shape, what the host answered for it, each cursor alive. Nothing
    else has changed among the objects, and nothing in the registry but the
    entry of the new window. *)
Theorem constructed_screen_state this a W W1 :
  Screen_ctor B ScreenCore_ctor ScreenCore_init this a W = Return tt W1 →
  ∃ w i s1,
    heap W !! this = None ∧
    heap W1 = <[this := s1]> (heap W) ∧
    nanogui_screens W1 = <[Some w := this]> (nanogui_screens W) ∧
    windows (host W1) = <[w := i]> (windows (host W)) ∧
    mGLFWWindow s1 = Some w ∧ mShutdownGLFWOnDestruct s1 = true ∧
    mCaption s1 = arg_caption a ∧ mFullscreen s1 = arg_fullscreen a ∧
    mBackground s1 = background0 B ∧
    mVisible (base s1) = win_visible i ∧
    length (mCursors s1) = CursorCount B ∧
    (∀ j, (j < CursorCount B)%nat →
       mCursors s1 !! j = Some (cursor_answer (std_cursors B (host W)) j)) ∧
    (∀ cur, Some cur ∈ mCursors s1 → cur ∈ cursors (host W1)).
Proof.
  intros (w & i & rest & c & Hthis & _ & _ & Hheap & Hreg & _ & Hwin & _ & Hcur & _)%Screen_ctor_result.
  exists w, i, (initialized_screen B w true (host W) i c
                  (prepared_screen B ScreenCore_ctor a w i)).
  assert (∀ j, (j < CursorCount B)%nat →
            cursor_table (std_cursors B (host W)) (seq 0 (CursorCount B))
              (replicate (CursorCount B) None) !! j
            = Some (cursor_answer (std_cursors B (host W)) j)) as Htable.
  { intros j Hj. apply cursor_table_lookup.
    - apply elem_of_seq. lia.
    - by rewrite length_replicate. }
  repeat split; try done.
  - cbn. by rewrite cursor_table_length, length_replicate.
  - intros cur (j & Hj)%list_elem_of_lookup. cbn in Hj.
    assert (j < CursorCount B)%nat as Hlt.
    { apply lookup_lt_Some in Hj.
      by rewrite cursor_table_length, length_replicate in Hj. }
    rewrite (Htable j Hlt) in Hj. injection Hj as Hj.
    rewrite Hcur. apply elem_of_union_l, elem_of_list_to_set, list_elem_of_omap.
    exists j. split; [|done]. apply elem_of_seq. lia.
Qed.

(** X17: to construct a [Screen] and destroy it again releases what the
    constructor acquired: the object is gone and the other objects are as
    before, the window is destroyed, the registry has no entry for it, every
    cursor the constructor had made is destroyed, and no event of the window
    reaches an object. *)
Theorem construct_then_destroy this a W W1 :
  Screen_ctor B ScreenCore_ctor ScreenCore_init this a W = Return tt W1 →
  ∃ w W2,
    Screen_dtor B this W1 = Return tt W2 ∧
    heap W2 = heap W ∧
    nanogui_screens W2 = delete (Some w) (nanogui_screens W) ∧
    windows (host W2) = delete w (windows (host W)) ∧
    cursors (host W2)
    = cursors (host W)
      ∖ list_to_set (omap (cursor_answer (std_cursors B (host W)))
                       (seq 0 (CursorCount B))) ∧
    (∀ k, host_event B k w W2 = None).
Proof.
  intros (w & i & rest & c & Hthis & _ & _ & Hheap & Hreg & _ & Hwin & _ & Hcur & _)%Screen_ctor_result.
  set (s1 := initialized_screen B w true (host W) i c
               (prepared_screen B ScreenCore_ctor a w i)) in *.
  destruct (Screen_dtor_run this W1 s1)
    as (W2 & Hrun & Hheap2 & Hreg2 & _ & _ & Hcur2 & Hwin2 & _).
  { rewrite Hheap. apply lookup_insert_eq. }
  assert (omap id (mCursors s1)
          = omap (cursor_answer (std_cursors B (host W))) (seq 0 (CursorCount B)))
    as Htable.
  { cbn. generalize (std_cursors B (host W)). intros answers.
    assert (cursor_table answers (seq 0 (CursorCount B))
              (replicate (CursorCount B) None)
            = cursor_answer answers <$> seq 0 (CursorCount B)) as ->.
    { apply list_eq. intros j. rewrite list_lookup_fmap.
      destruct (decide (j < CursorCount B)%nat) as [Hlt|Hge].
      - rewrite cursor_table_lookup, lookup_seq_lt; try done.
        + apply elem_of_seq. lia.
        + by rewrite length_replicate.
      - rewrite lookup_seq_ge by lia.
        apply lookup_ge_None. rewrite cursor_table_length, length_replicate. lia. }
    assert (∀ l : list nat,
              omap id (cursor_answer answers <$> l) = omap (cursor_answer answers) l)
      as Homap.
    { induction l as [|j l IH]; [done|]. csimpl. by rewrite IH. }
    apply Homap. }
  exists w, W2. split; [done|].
  rewrite Hheap2, Hreg2, Hwin2, Hcur2, Htable, Hheap, Hreg, Hwin, Hcur. cbn.
  rewrite !delete_insert_eq.
  split; [by apply delete_id|]. split; [done|]. split; [done|]. split.
  - apply set_eq. intros x. rewrite !elem_of_difference, elem_of_union. tauto.
  - intros k. unfold host_event.
    rewrite bool_decide_eq_false_2; [done|].
    rewrite Hwin2, Hwin. cbn. rewrite delete_insert_eq, lookup_delete_eq.
    by intros [? ?].
Qed.

(** X25: the constructor returns whenever the host has a window for it,
    the loader does not fail, [ScreenCore::init] does not throw and, when the
    window is to fill the screen, there is a primary monitor; the object it
    leaves is the one [initialize] makes of the object prepared with the
    arguments, registered for the new window. Asked for a full-screen window
    on a host without a primary monitor, it reads the video mode through a
    null pointer before it asks for any window. *)
Theorem constructor_succeeds this a W w i rest c :
  heap W !! this = None →
  pending_windows B (host W) = Some (w, i) :: rest →
  loader_fails B W = false →
  ScreenCore_init (win_size i) (found_pixel_ratio B (host W) i)
    (core_before_init B (host W) i
       (base (prepared_screen B ScreenCore_ctor a w i))) = inr c →
  ((arg_fullscreen a = true → is_Some (primary_monitor B (host W))) →
   ∃ W1,
     Screen_ctor B ScreenCore_ctor ScreenCore_init this a W = Return tt W1 ∧
     heap W1
     = <[this := initialized_screen B w true (host W) i c
                   (prepared_screen B ScreenCore_ctor a w i)]> (heap W) ∧
     nanogui_screens W1 = <[Some w := this]> (nanogui_screens W) ∧
     windows (host W1) = <[w := i]> (windows (host W)) ∧
     gladInitialized W1 = NANOGUI_GLAD B || gladInitialized W) ∧
  (arg_fullscreen a = true → primary_monitor B (host W) = None →
   Screen_ctor B ScreenCore_ctor ScreenCore_init this a W = Undefined).
Proof.
  intros Hthis Hpend Hok Hc. split.
  - intros Hmon.
    destruct (Screen_ctor_returns this a W w i rest c Hthis Hmon Hpend Hok Hc)
      as [W1 Hrun].
    destruct (Screen_ctor_result this a W W1 Hrun)
      as (w' & i' & rest' & c' & _ & Hpend' & Hc' & Hheap & Hreg & Hgl & Hwin & _).
    rewrite Hpend in Hpend'. injection Hpend' as <- <- <-.
    rewrite Hc in Hc'. injection Hc' as <-.
    by exists W1.
  - intros Hfull Hm.
    unfold Screen_ctor, constructing, getPrimaryVideoMode. rewrite Hthis, Hfull.
    repeat progress (unfold_M; cbn; rewrite ?Hm). done.
Qed.

(** X18: on a constructed [Screen], [setCursorAppearance(c)] hands to
    [glfwSetCursor] the window of the [Screen] and the cursor the host made
    for the shape [c], for every [c] from zero below the number of shapes;
    for any other [c] it reads outside of the table. *)
Theorem cursor_appearance_after_construction this a W W1 c :
  Screen_ctor B ScreenCore_ctor ScreenCore_init this a W = Return tt W1 →
  (0 ≤ c < Z.of_nat (CursorCount B) →
   ∃ w, is_Some (windows (host W1) !! w) ∧
        setCursorAppearance B this c W1
        = Return (Some w, cursor_answer (std_cursors B (host W)) (Z.to_nat c)) W1) ∧
  (¬ 0 ≤ c < Z.of_nat (CursorCount B) →
   setCursorAppearance B this c W1 = Undefined).
Proof.
  intros (w & i & rest & c0 & _ & _ & _ & Hheap & _ & _ & Hwin & _)%Screen_ctor_result.
  assert (heap W1 !! this
          = Some (initialized_screen B w true (host W) i c0
                    (prepared_screen B ScreenCore_ctor a w i))) as Hs.
  { rewrite Hheap. apply lookup_insert_eq. }
  unfold setCursorAppearance. unfold_M. rewrite Hs. cbn. split.
  - intros [H0 Hc]. exists w. split.
    { rewrite Hwin, lookup_insert_eq. by eexists. }
    rewrite (proj2 (Z.leb_le 0 c)) by done.
    rewrite cursor_table_lookup; [done|apply elem_of_seq; lia|].
    rewrite length_replicate. lia.
  - intros Hc. destruct (0 <=? c) eqn:H0; [|done].
    apply Z.leb_le in H0.
    rewrite (proj2 (lookup_ge_None _ _)); [done|].
    rewrite cursor_table_length, length_replicate. lia.
Qed.

(** ** Frames *)

(** [drawAll] on an object with a window that exists. *)
Lemma drawAll_run this W s w i :
  heap W !! this = Some s → mGLFWWindow s = Some w →
  windows (host W) !! w = Some i →
  ∃ W', drawAll B this W = Return tt W' ∧
    heap W' = <[this := drawn_screen B i s]> (heap W) ∧
    nanogui_screens W' = nanogui_screens W ∧
    windows (host W') = windows (host W) ∧
    log (host W') = log (host W) ++ drawAll_calls B this w i s.
Proof.
  intros Hs Hw Hi.
  unfold drawAll, getFramebufferSize, getWindowSize, window_info,
    drawAll_calls, drawn_screen.
  destruct (scaled_platform B) eqn:Hsc; run_with Hs Hw Hi.
  - destruct (mVisible (base s)) eqn:Hv; cbn;
      (eexists; split; [reflexivity|]); cbn;
      rewrite !insert_insert_eq, <- !app_assoc; cbn; rewrite ?Hv, ?Hw;
      repeat split; done.
  - destruct ((win_size i).1 =? 0) eqn:Hz; cbn;
      destruct (mVisible (base s)) eqn:Hv; cbn;
      (eexists; split; [reflexivity|]); cbn;
      rewrite !insert_insert_eq, <- !app_assoc; cbn; rewrite ?Hv, ?Hz, ?Hw;
      repeat split; done.
Qed.

(** X19: a frame changes the base subobject only, and of that neither the
    visibility nor the processing of events; a second frame, for which the
    host reports the same sizes, stores what the first one stored. *)
Theorem drawAll_settles this W s w i :
  heap W !! this = Some s → mGLFWWindow s = Some w →
  windows (host W) !! w = Some i →
  ∃ s1 W1 W2,
    drawAll B this W = Return tt W1 ∧
    heap W1 = <[this := s1]> (heap W) ∧
    set_base B (λ _, base s) s1 = s ∧
    mVisible (base s1) = mVisible (base s) ∧
    mProcessEvents (base s1) = mProcessEvents (base s) ∧
    drawAll B this W1 = Return tt W2 ∧
    heap W2 = heap W1.
Proof.
  intros Hs Hw Hi.
  destruct (drawAll_run this W s w i Hs Hw Hi)
    as (W1 & Hrun1 & Hheap1 & _ & Hwin1 & _).
  assert (mGLFWWindow (drawn_screen B i s) = Some w) as Hw1.
  { unfold drawn_screen.
    by destruct (scaled_platform B), (negb ((win_size i).1 =? 0)). }
  destruct (drawAll_run this W1 (drawn_screen B i s) w i)
    as (W2 & Hrun2 & Hheap2 & _); [|done| |].
  { rewrite Hheap1. apply lookup_insert_eq. }
  { by rewrite Hwin1. }
  exists (drawn_screen B i s), W1, W2.
  assert (drawn_screen B i (drawn_screen B i s) = drawn_screen B i s) as Hagain.
  { unfold drawn_screen.
    by destruct (scaled_platform B), (negb ((win_size i).1 =? 0)). }
  repeat split; try done.
  - unfold drawn_screen.
    destruct (scaled_platform B), (negb ((win_size i).1 =? 0)), s; done.
  - unfold drawn_screen.
    by destruct (scaled_platform B), (negb ((win_size i).1 =? 0)).
  - unfold drawn_screen.
    by destruct (scaled_platform B), (negb ((win_size i).1 =? 0)).
  - by rewrite Hheap2, Hagain, Hheap1, insert_insert_eq.
Qed.

(** X20: where the pixel ratio is not asked of the platform, a frame
    stores the framebuffer size the host reports; so once a frame is drawn
    while the host reports a framebuffer and a window of some size, the
    guard of [resizeCallbackEvent] lets the next resize event through. *)
Theorem drawAll_reopens_resize this W s w i :
  scaled_platform B = false →
  heap W !! this = Some s → mGLFWWindow s = Some w →
  windows (host W) !! w = Some i →
  fb_size i ≠ (0, 0) → win_size i ≠ (0, 0) →
  ∃ s1 W1,
    drawAll B this W = Return tt W1 ∧
    heap W1 !! this = Some s1 ∧ mGLFWWindow s1 = Some w ∧
    windows (host W1) !! w = Some i ∧
    mFBSize (base s1) = fb_size i ∧
    resize_rejected B s1 i = false.
Proof.
  intros Hsc Hs Hw Hi Hfb Hwin.
  destruct (drawAll_run this W s w i Hs Hw Hi)
    as (W1 & Hrun1 & Hheap1 & _ & Hwin1 & _).
  exists (drawn_screen B i s), W1.
  assert (mFBSize (base (drawn_screen B i s)) = fb_size i) as Hstored.
  { unfold drawn_screen. rewrite Hsc.
    by destruct (negb ((win_size i).1 =? 0)). }
  repeat split; try done.
  - rewrite Hheap1. apply lookup_insert_eq.
  - unfold drawn_screen. rewrite Hsc.
    by destruct (negb ((win_size i).1 =? 0)).
  - by rewrite Hwin1.
  - unfold resize_rejected, event_size. rewrite Hstored, Hsc.
    by rewrite !bool_decide_eq_false_2.
Qed.

(** [setVisible] on an object that exists. *)
Lemma setVisible_run this W s visible :
  heap W !! this = Some s →
  ∃ W1, setVisible B this visible W = Return tt W1 ∧
    heap W1 = <[this := set_mVisible B visible s]> (heap W) ∧
    nanogui_screens W1 = nanogui_screens W ∧
    windows (host W1) = windows (host W) ∧
    log (host W1)
    = log (host W)
      ++ (if eqb (mVisible (base s)) visible then []
          else if visible then [glfwShowWindow (mGLFWWindow s)]
               else [glfwHideWindow (mGLFWWindow s)]).
Proof.
  intros Hs. unfold setVisible. unfold_M. cbn. rewrite Hs. cbn.
  destruct (mVisible (base s)) eqn:Hv, visible; cbn;
    (eexists; split; [reflexivity|]); cbn; rewrite ?app_nil_r;
    repeat split; try done;
    (rewrite insert_id; [done|]); rewrite Hs; f_equal;
    destruct s as [[] ?]; cbn in *; by subst.
Qed.

(** X21: [drawAll] draws the widgets of a [Screen] exactly when the
    [Screen] is visible: after [setVisible(false)] a frame draws the contents
    but no widget, after [setVisible(true)] it draws both. *)
Theorem hidden_screen_draws_no_widgets this W s w i visible :
  heap W !! this = Some s → mGLFWWindow s = Some w →
  windows (host W) !! w = Some i →
  ∃ W', (setVisible B this visible;; drawAll B this) W = Return tt W' ∧
    drawContents this ∈ calls_since B W W' ∧
    (drawWidgets this ∈ calls_since B W W' ↔ visible = true).
Proof.
  intros Hs Hw Hi.
  destruct (setVisible_run this W s visible Hs)
    as (W1 & Hrun1 & Hheap1 & _ & Hwin1 & Hlog1).
  destruct (drawAll_run this W1 (set_mVisible B visible s) w i)
    as (W2 & Hrun2 & _ & _ & _ & Hlog2); [|done| |].
  { rewrite Hheap1. apply lookup_insert_eq. }
  { by rewrite Hwin1. }
  exists W2. split.
  { unfold mbind, M_bind. by rewrite Hrun1. }
  unfold calls_since. rewrite Hlog2, Hlog1, <- app_assoc, drop_app_length.
  unfold drawAll_calls. cbn.
  destruct (eqb (mVisible (base s)) visible), visible; cbn;
    (split; [repeat ((by left) || right)|]);
    (split; [intros Hin|intros Hv]);
    first [ done
          | solve [repeat ((by left) || right)]
          | exfalso;
            repeat (apply elem_of_cons in Hin as [Hin|Hin]; [discriminate|]);
            by apply elem_of_nil in Hin ].
Qed.

(** X22: [setVisible] and [setCaption] are idempotent: called a second time
    with the same argument they change nothing and call nothing, so that two
    calls in a row come to the same as one. *)
Theorem setters_idempotent this W s :
  heap W !! this = Some s →
  (∀ visible,
     (setVisible B this visible;; setVisible B this visible) W
     = setVisible B this visible W) ∧
  (∀ caption,
     (setCaption B this caption;; setCaption B this caption) W
     = setCaption B this caption W).
Proof.
  intros Hs. split.
  - intros visible. unfold setVisible. unfold_M. cbn. rewrite Hs. cbn.
    destruct (mVisible (base s)) eqn:Hv, visible; cbn;
      rewrite ?Hs, ?lookup_insert_eq; cbn; rewrite ?Hv; done.
  - intros caption. unfold setCaption. unfold_M. cbn. rewrite Hs. cbn.
    destruct (decide (caption = mCaption s)) as [Heq|Hne].
    + rewrite !(bool_decide_eq_true_2 _ Heq). cbn. rewrite Hs. cbn.
      by rewrite (bool_decide_eq_true_2 _ Heq).
    + rewrite !(bool_decide_eq_false_2 _ Hne). cbn.
      rewrite lookup_insert_eq. cbn. by rewrite bool_decide_eq_true_2.
Qed.

(** ** The functions that stand alone *)

Variable dropEvent : addr → list string → M B bool.
Variable length_error_what : string.

(** X23: [dropCallbackEvent(count, filenames)] hands on to [dropEvent] the
    first [count] names of the host, in their order, and answers what
    [dropEvent] answers; all of them when [count] is their number. A
    negative [count] makes it throw before [dropEvent] is called, and a
    [count] beyond the names makes it read outside of the array. *)
Theorem dropCallbackEvent_forwards this count filenames :
  (0 ≤ count ≤ Z.of_nat (length filenames) →
   ∃ arg,
     dropCallbackEvent B dropEvent length_error_what this count filenames
     = dropEvent this arg ∧
     length arg = Z.to_nat count ∧
     (∀ j, (j < Z.to_nat count)%nat → arg !! j = filenames !! j) ∧
     (count = Z.of_nat (length filenames) → arg = filenames)) ∧
  (count < 0 →
   ∀ W, dropCallbackEvent B dropEvent length_error_what this count filenames W
        = Throw (std_exception length_error_what) W) ∧
  (Z.of_nat (length filenames) < count →
   ∀ W, dropCallbackEvent B dropEvent length_error_what this count filenames W
        = Undefined).
Proof.
  unfold dropCallbackEvent. repeat split.
  - intros [H0 Hlen]. exists (take (Z.to_nat count) filenames).
    rewrite (proj2 (Z.ltb_ge count 0)) by done.
    rewrite (proj2 (Z.ltb_ge _ _)) by done.
    repeat split.
    + rewrite length_take. lia.
    + intros j Hj. by apply lookup_take_lt.
    + intros ->. rewrite Nat2Z.id. by apply take_ge.
  - intros Hneg W. by rewrite (proj2 (Z.ltb_lt count 0)).
  - intros Hlen W.
    rewrite (proj2 (Z.ltb_ge count 0)) by lia.
    by rewrite (proj2 (Z.ltb_lt _ _)).
Qed.

End more_screen_facts.

(** ** The further facts, in the example worlds *)

Lemma iconified_lookup :
  heap iconified !! 1%positive = Some constructed_screen.
Proof. computed. Qed.

Lemma iconified_window :
  windows (host iconified) !! 1%positive
  = Some {| fb_size := (0, 0); win_size := (0, 0); win_visible := true |}.
Proof. computed. Qed.

Lemma restored_lookup :
  heap restored !! 1%positive = Some iconified_screen.
Proof. computed. Qed.

Lemma restored_window :
  windows (host restored) !! 1%positive
  = Some {| fb_size := (1600, 1200); win_size := (800, 600);
            win_visible := true |}.
Proof. computed. Qed.

Lemma external_constructed_lookup :
  heap external_world_constructed !! 1%positive
  = Some (fresh_screen example_build example_core "" false).
Proof. computed. Qed.

Lemma external_constructed_window :
  windows (host external_world_constructed) !! 7%positive
  = Some {| fb_size := (640, 480); win_size := (640, 480);
            win_visible := true |}.
Proof. computed. Qed.


Lemma resize_rejected_changes_nothing_witness :
  ∃ W', (∀ resizeEvent,
           resizeCallbackEvent example_build resizeEvent 1%positive iconified
           = Return false W') ∧
        heap W' = heap iconified.
Proof.
  destruct (resize_rejected_changes_nothing example_build 1%positive iconified
              constructed_screen 1%positive _ iconified_lookup eq_refl
              iconified_window)
    as (W' & Hrun & Hheap & _); [by right|].
  by exists W'.
Defined.

Lemma resize_events_rejected_while_framebuffer_empty_witness :
  ∃ W', resize_events example_build handler_accepts 1%positive 1%positive
          [ {| fb_size := (1600, 1200); win_size := (800, 600);
               win_visible := true |};
            {| fb_size := (2048, 1536); win_size := (1024, 768);
               win_visible := true |} ] restored
        = Return [false; false] W' ∧
        heap W' = heap restored.
Proof.
  exact (resize_events_rejected_while_framebuffer_empty example_build
           handler_accepts 1%positive 1%positive _ restored iconified_screen
           restored_lookup eq_refl eq_refl).
Defined.

Lemma resize_accepted_stores_then_asks_witness :
  ∃ s1 W1,
    heap W1 = <[1%positive := s1]> (heap constructed_world) ∧
    mSize (base s1) = (800, 600) ∧ mFBSize (base s1) = (1600, 1200) ∧
    resizeCallbackEvent example_build handler_accepts 1%positive constructed_world
    = Return true W1.
Proof.
  destruct (resize_accepted_stores_then_asks example_build handler_accepts
              1%positive constructed_world constructed_screen 1%positive _
              constructed_lookup eq_refl constructed_window)
    as (s1 & W1 & Hheap & Hbase & _ & Hrun); [computed|].
  exists s1, W1. rewrite Hbase. repeat split; try done.
  by apply Hrun.
Defined.

Lemma window_needed_witness :
  drawAll example_build 1%positive external_world_constructed = Undefined ∧
  resizeCallbackEvent example_build handler_accepts 1%positive
    external_world_constructed = Undefined.
Proof.
  destruct (window_needed example_build example_init 1%positive
              external_world_constructed _ external_constructed_lookup eq_refl)
    as (Hdraw & Hresize & _).
  split; [done|apply Hresize].
Defined.

Lemma destroyed_screen_gets_no_event_witness :
  heap destroyed_world !! 1%positive = None ∧
  callback_target example_build 1%positive destroyed_world = None ∧
  ∀ k, host_event example_build k 1%positive destroyed_world = None.
Proof.
  assert (Screen_dtor example_build 1%positive constructed_world
          = Return tt destroyed_world) as Hrun by computed.
  destruct (destroyed_screen_gets_no_event example_build 1%positive
              constructed_world constructed_screen 1%positive destroyed_world
              constructed_lookup eq_refl Hrun)
    as (Hgone & Htarget & Hevent & _).
  done.
Defined.

Lemma default_screen_owns_nothing_witness :
  ∃ W1 W2,
    Screen_default_ctor example_build example_core 1%positive world0
    = Return tt W1 ∧
    Screen_dtor example_build 1%positive W1 = Return tt W2 ∧
    host W2 = host world0 ∧ heap W2 = heap world0.
Proof.
  destruct (default_screen_owns_nothing example_build example_core 1%positive
              world0 eq_refl)
    as (W1 & W2 & Hctor & _ & Hdtor & Hhost & Hheap & _).
  by exists W1, W2.
Defined.

Lemma failed_window_changes_nothing_witness :
  (∃ W', Screen_ctor example_build example_core example_init 1%positive
           example_args world_without_window
         = Throw (std_exception "Could not create an OpenGL 3.3 context!") W' ∧
         heap W' = heap world_without_window ∧
         length (calls_since example_build world_without_window W') = 14%nat) ∧
  (∃ W', Screen_ctor example_build example_core example_init 1%positive
           wrapping_args world_without_window
         = Throw (std_exception
                    "Could not create an OpenGL 4294967295.3 context!") W' ∧
         calls_since example_build world_without_window W' !! 0%nat
         = Some (glfwWindowHint GLFW_CONTEXT_VERSION_MAJOR (hint_int (-1)))).
Proof.
  split.
  - destruct (failed_window_changes_nothing example_build example_core
                example_init 1%positive example_args world_without_window)
      as (W' & Hrun & Hheap & _ & _ & _ & _ & _ & Hcalls); [computed|done|done|].
    exists W'. by rewrite Hcalls.
  - destruct (failed_window_changes_nothing example_build example_core
                example_init 1%positive wrapping_args world_without_window)
      as (W' & Hrun & _ & _ & _ & _ & _ & _ & Hcalls); [computed|done|done|].
    exists W'. by rewrite Hcalls.
Defined.

Lemma failed_loader_leaves_window_witness :
  ∃ W', Screen_ctor example_build example_core example_init 1%positive
          example_args world_with_failing_loader
        = Throw (std_exception "Could not initialize GLAD!") W' ∧
        is_Some (windows (host W') !! 1%positive) ∧
        glad_init example_build W' = Return tt W'.
Proof.
  destruct (failed_loader_leaves_window example_build example_core example_init
              1%positive example_args world_with_failing_loader 1%positive
              {| fb_size := (1600, 1200); win_size := (800, 600);
                 win_visible := false |} [])
    as (W' & Hrun & _ & _ & Hwin & _ & _ & Hglad); [computed|done|done|done|].
  exists W'. split; [done|]. split; [|done]. eexists. exact Hwin.
Defined.

Lemma initialize_registers_witness :
  ∃ W', initialize example_build example_init 1%positive (Some 7%positive) true
          external_world_constructed = Return tt W' ∧
        callback_target example_build 7%positive W' = Some 1%positive.
Proof.
  destruct (initialize_registers example_build example_init 1%positive
              7%positive true external_world_constructed _ _ _
              external_constructed_lookup external_constructed_window
              eq_refl eq_refl)
    as (W' & Hrun & _ & _ & Htarget & _).
  by exists W'.
Defined.

Lemma initialize_failure_not_registered_witness :
  nanogui_screens external_world_failed
  = nanogui_screens external_world_constructed ∧
  ∃ s1, heap external_world_failed !! 1%positive = Some s1 ∧
        mGLFWWindow s1 = Some 7%positive ∧ mShutdownGLFWOnDestruct s1 = true.
Proof.
  assert (initialize example_build throwing_init 1%positive (Some 7%positive)
            true external_world_constructed
          = Throw (std_exception "no theme") external_world_failed)
    as Hrun by computed.
  destruct (initialize_failure_not_registered example_build throwing_init
              1%positive 7%positive true external_world_constructed _ _ _ _
              external_constructed_lookup external_constructed_window Hrun)
    as (_ & Hreg & _ & _ & Hobj).
  done.
Defined.

Lemma constructor_calls_in_order_witness :
  ∃ w i,
    windows (host constructed_world) !! w = Some i ∧
    length (calls_since example_build world0 constructed_world) = 44%nat.
Proof.
  destruct (constructor_calls_in_order example_build example_core example_init
              1%positive example_args world0 constructed_world
              constructed_returns)
    as (w & i & Hwin & Hcalls & _).
  exists w, i. split; [done|]. computed.
Defined.

Lemma constructed_screen_state_witness :
  ∃ w i s1,
    heap constructed_world = <[1%positive := s1]> (heap world0) ∧
    windows (host constructed_world) = <[w := i]> (windows (host world0)) ∧
    mCaption s1 = "NanoGUI" ∧ mVisible (base s1) = win_visible i ∧
    length (mCursors s1) = 6%nat.
Proof.
  destruct (constructed_screen_state example_build example_core example_init
              1%positive example_args world0 constructed_world
              constructed_returns)
    as (w & i & s1 & _ & Hheap & _ & Hwin & _ & _ & Hcap & _ & _ & Hvis & Hlen & _).
  by exists w, i, s1.
Defined.

Lemma construct_then_destroy_witness :
  ∃ w W2,
    Screen_dtor example_build 1%positive constructed_world = Return tt W2 ∧
    heap W2 = heap world0 ∧
    windows (host W2) = delete w (windows (host world0)) ∧
    ∀ k, host_event example_build k w W2 = None.
Proof.
  destruct (construct_then_destroy example_build example_core example_init
              1%positive example_args world0 constructed_world
              constructed_returns)
    as (w & W2 & Hrun & Hheap & _ & Hwin & _ & Hevent).
  by exists w, W2.
Defined.

Lemma cursor_appearance_after_construction_witness :
  (∃ w, setCursorAppearance example_build 1%positive 3 constructed_world
        = Return (Some w, Some 4%positive) constructed_world) ∧
  setCursorAppearance example_build 1%positive 6 constructed_world = Undefined.
Proof.
  split.
  - destruct (cursor_appearance_after_construction example_build example_core
                example_init 1%positive example_args world0 constructed_world 3
                constructed_returns)
      as [Hin _].
    destruct Hin as (w & _ & Hrun); [done|]. by exists w.
  - destruct (cursor_appearance_after_construction example_build example_core
                example_init 1%positive example_args world0 constructed_world 6
                constructed_returns)
      as [_ Hout].
    apply Hout. by intros [_ ?].
Defined.

Lemma drawAll_settles_witness :
  ∃ s1 W1 W2,
    drawAll example_build 1%positive constructed_world = Return tt W1 ∧
    heap W1 = <[1%positive := s1]> (heap constructed_world) ∧
    drawAll example_build 1%positive W1 = Return tt W2 ∧
    heap W2 = heap W1.
Proof.
  destruct (drawAll_settles example_build 1%positive constructed_world
              constructed_screen 1%positive _
              constructed_lookup eq_refl constructed_window)
    as (s1 & W1 & W2 & Hrun1 & Hheap1 & _ & _ & _ & Hrun2 & Hheap2).
  by exists s1, W1, W2.
Defined.

Lemma drawAll_reopens_resize_witness :
  ∃ s1 W1,
    drawAll example_build 1%positive restored = Return tt W1 ∧
    heap W1 !! 1%positive = Some s1 ∧
    mFBSize (base s1) = (1600, 1200) ∧
    resize_rejected example_build s1
      {| fb_size := (1600, 1200); win_size := (800, 600); win_visible := true |}
    = false.
Proof.
  destruct (drawAll_reopens_resize example_build 1%positive restored
              iconified_screen 1%positive _ eq_refl
              restored_lookup eq_refl restored_window)
    as (s1 & W1 & Hrun & Hs1 & _ & _ & Hfb & Hguard); [done|done|].
  by exists s1, W1.
Defined.

Lemma hidden_screen_draws_no_widgets_witness :
  ∃ W', (setVisible example_build 1%positive true;;
         drawAll example_build 1%positive) constructed_world = Return tt W' ∧
        drawWidgets 1%positive ∈ calls_since example_build constructed_world W'.
Proof.
  destruct (hidden_screen_draws_no_widgets example_build 1%positive
              constructed_world constructed_screen 1%positive _ true
              constructed_lookup eq_refl constructed_window)
    as (W' & Hrun & _ & Hwidgets).
  exists W'. split; [done|]. by apply Hwidgets.
Defined.

Lemma setters_idempotent_witness :
  (setVisible example_build 1%positive true;;
   setVisible example_build 1%positive true) constructed_world
  = setVisible example_build 1%positive true constructed_world ∧
  (setCaption example_build 1%positive "Editor";;
   setCaption example_build 1%positive "Editor") constructed_world
  = setCaption example_build 1%positive "Editor" constructed_world.
Proof.
  destruct (setters_idempotent example_build 1%positive constructed_world
              constructed_screen constructed_lookup)
    as [Hvisible Hcaption].
  split; [apply Hvisible|apply Hcaption].
Defined.

Lemma dropCallbackEvent_forwards_witness :
  dropCallbackEvent example_build handler_two_files "vector" 1%positive 2
    ["a.obj"; "b.obj"; "c.obj"] world0
  = Return true world0 ∧
  dropCallbackEvent example_build handler_two_files "vector" 1%positive (-1)
    ["a.obj"; "b.obj"; "c.obj"] world0
  = Throw (std_exception "vector") world0.
Proof.
  destruct (dropCallbackEvent_forwards example_build handler_two_files "vector"
              1%positive 2 ["a.obj"; "b.obj"; "c.obj"])
    as (Hforward & _ & _).
  destruct (dropCallbackEvent_forwards example_build handler_two_files "vector"
              1%positive (-1) ["a.obj"; "b.obj"; "c.obj"])
    as (_ & Hthrow & _).
  split.
  - destruct Hforward as (arg & -> & Hlen & _); [done|].
    unfold handler_two_files. by rewrite Hlen.
  - by apply Hthrow.
Defined.

Lemma constructor_succeeds_witness :
  (∃ W1,
     Screen_ctor example_build example_core example_init 1%positive example_args
       world0 = Return tt W1 ∧
     nanogui_screens W1 = <[Some 1%positive := 1%positive]> (nanogui_screens world0) ∧
     gladInitialized W1 = true) ∧
  Screen_ctor example_build example_core example_init 1%positive fullscreen_args
    headless_world = Undefined.
Proof.
  split.
  - destruct (constructor_succeeds example_build example_core example_init
                1%positive example_args world0 1%positive
                {| fb_size := (1600, 1200); win_size := (800, 600);
                   win_visible := false |} [] _
                eq_refl eq_refl eq_refl eq_refl)
      as [Hreturns _].
    destruct Hreturns as (W1 & Hrun & _ & Hreg & _ & Hglad); [done|].
    by exists W1.
  - destruct (constructor_succeeds example_build example_core example_init
                1%positive fullscreen_args headless_world 1%positive
                {| fb_size := (1600, 1200); win_size := (800, 600);
                   win_visible := false |} [] _
                eq_refl eq_refl eq_refl eq_refl)
      as [_ Hundefined].
    by apply Hundefined.
Defined.

End ScreenFacts.
